(** * hf_agent_cert: URL detection, multimodal content assembly and the
      question pipeline

    A shallow embedding of [hf_agent_cert/multimodal_content_handler.py]
    and [hf_agent_cert/agent.py].

    - Python [str] values are [string]s; a character is an [ascii], read as
      the code point of the same number, so the development covers texts
      whose code points are below 256.  The character classes of [re]
      ([\s], [\w], [\d]) and the case mapping are the Unicode ones
      restricted to that range.
    - [re] is modelled by a backtracking matcher that lists, in the
      priority order of the engine, every way a pattern can match at a
      position; the engine's match is the first one.
    - [list(set(urls))] is modelled by [elements] of a [gset]: some
      duplicate-free enumeration, whose order no statement relies on.
    - The HTTP download, the Gemini file store and the model are functions
      on an abstract world state that return or raise; a run yields its
      result, the new world state and the trace of the calls it made. *)

From Stdlib Require Import Ascii String NArith.
From stdpp Require Import base list strings gmap.

Local Open Scope N_scope.

(** ** Characters *)

Module Chr.

Definition code (c : ascii) : N := N_of_ascii c.

Definition between (lo hi n : N) : bool := (lo <=? n) && (n <=? hi).

(** [Py_UNICODE_ISSPACE], the test behind both [\s] and [str.strip()]. *)
Definition is_space (c : ascii) : bool :=
  let n := code c in
  between 9 13 n || between 28 32 n || (n =? 133) || (n =? 160).

(** [\d] (category Nd). *)
Definition is_digit (c : ascii) : bool := between 48 57 (code c).

Definition is_ascii_alpha (c : ascii) : bool :=
  let n := code c in between 65 90 n || between 97 122 n.

(** [\w]: [str.isalnum()] or the underscore. *)
Definition is_word (c : ascii) : bool :=
  let n := code c in
  is_ascii_alpha c || is_digit c || (n =? 95)
  || (n =? 170) || (n =? 178) || (n =? 179) || (n =? 181) || (n =? 185)
  || (n =? 186) || between 188 190 n
  || between 192 214 n || between 216 246 n || between 248 255 n.

Definition lower (c : ascii) : ascii :=
  let n := code c in
  if between 65 90 n || between 192 214 n || between 216 222 n
  then ascii_of_N (n + 32) else c.

Definition upper (c : ascii) : ascii :=
  let n := code c in
  if between 97 122 n || between 224 246 n || between 248 254 n
  then ascii_of_N (n - 32) else c.

Definition eqb (a b : ascii) : bool := Ascii.eqb a b.

End Chr.

(** ** Regular expressions, as far as the two patterns of the source go *)

Module Re.

Inductive item :=
| IChar (c : ascii)
| IRange (lo hi : ascii)
| ISpace
| IWord
| IDigit.

Inductive regex :=
| Eps
| Lit (c : ascii)
| Set_ (negated : bool) (items : list item)
| Seq (r1 r2 : regex)
| Alt (r1 r2 : regex)
| Star (r : regex)
| Plus (r : regex)
| Opt (r : regex)
| AtLeast (n : nat) (r : regex).

(** A literal word, character by character. *)
Fixpoint lits (s : string) : regex :=
  match s with
  | EmptyString => Eps
  | String c s' => Seq (Lit c) (lits s')
  end.

Section Matcher.
(** [re.IGNORECASE] *)
Variable ignorecase : bool.

Definition lit_match (p c : ascii) : bool :=
  if ignorecase then Chr.eqb (Chr.lower p) (Chr.lower c) else Chr.eqb p c.

Definition in_range (lo hi c : ascii) : bool :=
  Chr.between (Chr.code lo) (Chr.code hi) (Chr.code c).

Definition item_match (i : item) (c : ascii) : bool :=
  match i with
  | IChar p => lit_match p c
  | IRange lo hi =>
      in_range lo hi c
      || (ignorecase
          && (in_range lo hi (Chr.lower c) || in_range lo hi (Chr.upper c)))
  | ISpace => Chr.is_space c
  | IWord => Chr.is_word c
  | IDigit => Chr.is_digit c
  end.

Definition set_match (negated : bool) (items : list item) (c : ascii) : bool :=
  xorb negated (existsb (fun i => item_match i c) items).

Definition one (p : ascii -> bool) (s : list ascii) : list (list ascii) :=
  match s with
  | c :: s' => if p c then [s'] else []
  | [] => []
  end.

(** Greedy repetition: one more iteration is tried before stopping, and an
    iteration that consumed nothing is not repeated. *)
Fixpoint star_from (step : list ascii -> list (list ascii)) (fuel : nat)
    (s : list ascii) : list (list ascii) :=
  match fuel with
  | O => [s]
  | S fuel' =>
      flat_map
        (fun s' =>
           if (length s' <? length s)%nat then star_from step fuel' s' else [])
        (step s)
      ++ [s]
  end.

Definition star (step : list ascii -> list (list ascii)) (s : list ascii)
    : list (list ascii) :=
  star_from step (S (length s)) s.

Fixpoint at_least (step : list ascii -> list (list ascii)) (n : nat)
    (s : list ascii) : list (list ascii) :=
  match n with
  | O => star step s
  | S n' => flat_map (at_least step n') (step s)
  end.

(** [rests r s]: the suffixes of [s] left over by every way [r] can match a
    prefix of [s], in the order in which the backtracking engine finds
    them. *)
Fixpoint rests (r : regex) : list ascii -> list (list ascii) :=
  match r with
  | Eps => fun s => [s]
  | Lit p => one (lit_match p)
  | Set_ negated items => one (set_match negated items)
  | Seq r1 r2 => fun s => flat_map (rests r2) (rests r1 s)
  | Alt r1 r2 => fun s => rests r1 s ++ rests r2 s
  | Star r1 => star (rests r1)
  | Plus r1 => fun s => flat_map (star (rests r1)) (rests r1 s)
  | Opt r1 => fun s => rests r1 s ++ [s]
  | AtLeast n r1 => at_least (rests r1) n
  end.

(** The text consumed when [s] is matched down to its suffix [rest]. *)
Definition consumed (s rest : list ascii) : list ascii :=
  take (length s - length rest)%nat s.

(** [pattern.match(s)]: the first way to match at the start of [s]. *)
Definition match_ (r : regex) (s : list ascii) : option (list ascii) :=
  head (rests r s).

(** [pattern.search(s)]: the first position with a match. *)
Fixpoint search (r : regex) (s : list ascii) : option (list ascii) :=
  match match_ r s with
  | Some rest => Some (consumed s rest)
  | None =>
      match s with
      | [] => None
      | _ :: s' => search r s'
      end
  end.

(** [pattern.findall(s)] for a pattern without capturing groups: the
    matches, scanning left to right without overlap.  After an empty match
    the next one may not be empty at the same position ([must_advance]). *)
Fixpoint findall_from (r : regex) (fuel : nat) (must_advance : bool)
    (s : list ascii) : list (list ascii) :=
  match fuel with
  | O => []
  | S fuel' =>
      let found :=
        if must_advance
        then filter (fun rest => (length rest < length s)%nat) (rests r s)
        else rests r s in
      match found with
      | rest :: _ =>
          consumed s rest
          :: findall_from r fuel' (length rest =? length s)%nat rest
      | [] =>
          match s with
          | [] => []
          | _ :: s' => findall_from r fuel' false s'
          end
      end
  end.

Definition findall (r : regex) (s : list ascii) : list (list ascii) :=
  findall_from r (2 * length s + 2) false s.

End Matcher.

End Re.

(** ** Python string operations used by the source *)

Module Str.

Definition of_list (l : list ascii) : string := string_of_list_ascii l.
Definition to_list (s : string) : list ascii := list_ascii_of_string s.

Fixpoint lstrip_by (p : ascii -> bool) (s : list ascii) : list ascii :=
  match s with
  | c :: s' => if p c then lstrip_by p s' else s
  | [] => []
  end.

Definition rstrip_by (p : ascii -> bool) (s : list ascii) : list ascii :=
  reverse (lstrip_by p (reverse s)).

(** [s.strip()] *)
Definition strip (s : list ascii) : list ascii :=
  rstrip_by Chr.is_space (lstrip_by Chr.is_space s).

(** [s.startswith(p)] *)
Fixpoint startswith (p s : list ascii) : bool :=
  match p, s with
  | [], _ => true
  | a :: p', b :: s' => Chr.eqb a b && startswith p' s'
  | _ :: _, [] => false
  end.

(** [c in s] for a one-character [c] *)
Definition has_char (c : ascii) (s : list ascii) : bool :=
  existsb (Chr.eqb c) s.

(** [s.find(c)] for a one-character [c]; [None] stands for [-1]. *)
Fixpoint find (c : ascii) (s : list ascii) : option nat :=
  match s with
  | [] => None
  | x :: s' => if Chr.eqb c x then Some O else option_map S (find c s')
  end.

(** [s.lower()] *)
Definition lower (s : list ascii) : list ascii := map Chr.lower s.

(** [bool(s)] *)
Definition truthy (s : string) : bool :=
  match s with EmptyString => false | String _ _ => true end.

End Str.

(** ** Exceptions

    Only subclasses of [Exception] are modelled: they are what the handlers
    of the source catch. *)

Inductive exn :=
| RequestException (msg : string)
    (** [requests.exceptions.RequestException] and its subclasses *)
| OtherException (msg : string)
    (** any other subclass of [Exception] *)
| RetryError (last : exn)
    (** [tenacity.RetryError], carrying the last attempt's exception *).

(** [str(e)].  The text [tenacity] prints for a [RetryError] names a memory
    address; the model prints the last exception instead. *)
Fixpoint exn_str (e : exn) : string :=
  match e with
  | RequestException msg => msg
  | OtherException msg => msg
  | RetryError last => "RetryError[" +:+ exn_str last +:+ "]"
  end.

Definition result (A : Type) : Type := exn + A.

(** ** [urllib.parse.urlparse], as far as [scheme] and [netloc] go

    The algorithm of CPython's [urlsplit] (as of 3.12; since 3.9 a text
    before the first colon is a scheme also when digits follow the colon).
    On code points below 256 the NFKC check of [_checknetloc] never fails,
    so it does not appear.  Of the checks on a bracketed host the model keeps
    the one every version has, unbalanced brackets; no candidate of the
    detector holds a bracket (see [candidate_parses] below), so none of them
    is ever reached from [extract_urls]. *)

Module UrlParse.

Record ParseResult := { scheme : string; netloc : string }.

Definition c0_control_or_space (c : ascii) : bool := Chr.code c <=? 32.

(** [_UNSAFE_URL_BYTES_TO_REMOVE]: tab, carriage return, newline. *)
Definition unsafe_byte (c : ascii) : bool :=
  let n := Chr.code c in (n =? 9) || (n =? 13) || (n =? 10).

(** [scheme_chars] *)
Definition scheme_char (c : ascii) : bool :=
  Chr.is_ascii_alpha c || Chr.is_digit c
  || Chr.eqb c "+" || Chr.eqb c "-" || Chr.eqb c ".".

Definition netloc_delim (c : ascii) : bool :=
  Chr.eqb c "/" || Chr.eqb c "?" || Chr.eqb c "#".

Fixpoint take_until (p : ascii -> bool) (s : list ascii) : list ascii :=
  match s with
  | c :: s' => if p c then [] else c :: take_until p s'
  | [] => []
  end.

(** The scheme and what follows it, when the text before the first colon
    is a scheme. *)
Definition split_scheme (url : list ascii) : list ascii * list ascii :=
  match Str.find ":" url, url with
  | Some (S i), c0 :: _ =>
      if Chr.is_ascii_alpha c0 && forallb scheme_char (take (S i) url)
      then (Str.lower (take (S i) url), drop (S (S i)) url)
      else ([], url)
  | _, _ => ([], url)
  end.

Definition urlsplit (url0 : list ascii) : result (list ascii * list ascii) :=
  let url1 := Str.lstrip_by c0_control_or_space url0 in
  let url2 := filter (fun c => unsafe_byte c = false) url1 in
  let '(sch, url3) := split_scheme url2 in
  if Str.startswith (Str.to_list "//") url3 then
    let nl := take_until netloc_delim (drop 2 url3) in
    let lb := Str.has_char "[" nl in
    let rb := Str.has_char "]" nl in
    if (lb && negb rb) || (rb && negb lb)
    then inl (OtherException "Invalid IPv6 URL")
    else inr (sch, nl)
  else inr (sch, []).

Definition urlparse (url : string) : result ParseResult :=
  match urlsplit (Str.to_list url) with
  | inl e => inl e
  | inr (sch, nl) => inr {| scheme := Str.of_list sch; netloc := Str.of_list nl |}
  end.

End UrlParse.

(** ** [URLDetector] *)

Module URLDetector.

Import Re.

(** The class [C] of the comments below, written [[^\s<>Q{}|\\^`\[\]]] in the
    source, where [Q] stands for the double-quote character (code 34). *)
Definition url_char_excluded : list item :=
  [ISpace; IChar "<"; IChar ">"; IChar "034"; IChar "{"; IChar "}";
   IChar "|"; IChar "\"; IChar "^"; IChar "`"; IChar "["; IChar "]"].

Definition url_char : regex := Set_ true url_char_excluded.

(** First alternative: [(?:(?:https?|ftp):\/\/|www\.)C+(?:\.C+)*], its
    prefix group first, then the rest. *)
Definition web_prefix : regex :=
  Alt (Seq (Alt (Seq (lits "http") (Opt (Lit "s"))) (lits "ftp"))
           (lits "://"))
      (lits "www.").

Definition web_tail : regex :=
  Seq (Plus url_char) (Star (Seq (Lit ".") (Plus url_char))).

Definition pat_web : regex := Seq web_prefix web_tail.

(** Second alternative: [(?:[\w\-]+\.)+[a-zA-Z]{2,}] followed by the optional
    group of [\/] and [C*]. *)
Definition pat_domain : regex :=
  Seq (Plus (Seq (Plus (Set_ false [IWord; IChar "-"])) (Lit ".")))
      (Seq (AtLeast 2 (Set_ false [IRange "a" "z"; IRange "A" "Z"]))
           (Opt (Seq (Lit "/") (Star url_char)))).

(** Third alternative: [(?:file:\/\/C+)] *)
Definition pat_file : regex := Seq (lits "file://") (Plus url_char).

(** Fourth alternative: [(?:data:C+)] *)
Definition pat_data : regex := Seq (lits "data:") (Plus url_char).

(** [URL_PATTERN], compiled with [re.IGNORECASE] *)
Definition URL_PATTERN : regex :=
  Alt pat_web (Alt pat_domain (Alt pat_file pat_data)).

(** [^[a-zA-Z][a-zA-Z\d+\-.]*:], used through [re.match], which anchors at
    the start of the string (so the [^] adds nothing), without flags. *)
Definition SCHEME_PREFIX : regex :=
  Seq (Set_ false [IRange "a" "z"; IRange "A" "Z"])
      (Seq (Star (Set_ false [IRange "a" "z"; IRange "A" "Z"; IDigit;
                              IChar "+"; IChar "-"; IChar "."]))
           (Lit ":")).

Definition has_scheme_prefix (url : list ascii) : bool :=
  bool_decide (is_Some (match_ false SCHEME_PREFIX url)).

(** "Add protocol if missing" *)
Definition add_protocol (url : list ascii) : list ascii :=
  if negb (has_scheme_prefix url) then
    if Str.startswith (Str.to_list "www.") url
    then Str.to_list "https://" ++ url
    else if Str.has_char "." url && negb (Str.startswith (Str.to_list ".") url)
    then Str.to_list "https://" ++ url
    else url
  else url.

(** "Validate URL structure": the [try] block, with parse failures caught. *)
Definition keeps (url : string) : bool :=
  match UrlParse.urlparse url with
  | inr parsed =>
      Str.truthy (UrlParse.scheme parsed)
      && (Str.truthy (UrlParse.netloc parsed)
          || bool_decide (UrlParse.scheme parsed = "file"))
  | inl _ => false
  end.

(** The normalized candidate of a raw match. *)
Definition candidate (m : list ascii) : string :=
  Str.of_list (add_protocol (Str.strip m)).

(** The body of the [for match in matches] loop. *)
Definition visit (urls : list string) (m : list ascii) : list string :=
  let url := candidate m in
  if keeps url then urls ++ [url] else urls.

(** [list(set(urls))] *)
Definition list_of_set (urls : list string) : list string :=
  elements (list_to_set urls : gset string).

Definition extract_urls (text : string) : list string :=
  if negb (Str.truthy text) then []
  else
    let matches := findall true URL_PATTERN (Str.to_list text) in
    let urls := foldl visit [] matches in
    list_of_set urls.

Definition contains_urls (text : string) : bool :=
  bool_decide (is_Some (search true URL_PATTERN (Str.to_list text))).

End URLDetector.

(** ** The outside world

    The collaborators (HTTP download, the Gemini file store, the model) are
    functions on an abstract world state; each may return or raise.  Every
    call leaves an event, with its result, in the trace of the run. *)

Record File := { name : string; uri : string; mime_type : option string }.

(** An element of [content_parts]. *)
Inductive ContentPart :=
| Text (text : string)
    (** [types.Part(text=...)] *)
| RemoteFile (file : File)
    (** the uploaded file object returned by [_create_file_part] *)
| LinkReference (file_uri : string)
    (** [types.Part(file_data=types.FileData(file_uri=url))] *).

(** [GenerateContentResponse]: [response.text] is a string or [None]. *)
Record Response := { response_text : option string }.

(** A call to a collaborator, with what it returned or raised. *)
Inductive event :=
| EvDownload (url : string) (r : result (list Byte.byte))
    (** [requests.get(url, timeout=30)] with [raise_for_status()] *)
| EvUpload (display_name : string) (mime : option string) (r : result File)
    (** [genai_client.files.upload] *)
| EvGenerate (contents : list ContentPart) (r : result Response)
    (** [genai_client.models.generate_content] *)
| EvSleep (seconds : N)
    (** the wait between two attempts *)
| EvList (r : result (list File))
    (** [genai_client.files.list()] *)
| EvDelete (file : string) (r : result unit)
    (** [genai_client.files.delete] *)
| EvLogError (msg : string)
    (** [logger.error] *)
| EvPrint (files : list File)
    (** [print] *).

Record Services (W : Type) := {
  http_get : string -> W -> result (list Byte.byte) * W;
  files_upload :
    list Byte.byte -> string -> option string -> W -> result File * W;
  files_list : W -> result (list File) * W;
  files_delete : string -> W -> result unit * W;
  generate_content : string -> list ContentPart -> W -> result Response * W;
  (** [mimetypes.guess_type(file_name)[0]] *)
  guess_type : string -> option string
}.
Arguments http_get {W}.
Arguments files_upload {W}.
Arguments files_list {W}.
Arguments files_delete {W}.
Arguments generate_content {W}.
Arguments guess_type {W}.

(** ** Computations: world state, exceptions, trace *)

Module Run.
Section Run.
Context {W : Type}.

Definition M (A : Type) : Type := W -> result A * W * list event.

Definition ret {A} (a : A) : M A := fun w => (inr a, w, []).

Definition raise {A} (e : exn) : M A := fun w => (inl e, w, []).

Definition bind {A B} (m : M A) (f : A -> M B) : M B :=
  fun w =>
    match m w with
    | (inl e, w1, t1) => (inl e, w1, t1)
    | (inr a, w1, t1) =>
        match f a w1 with
        | (r, w2, t2) => (r, w2, t1 ++ t2)
        end
    end.

(** [try: m  except Exception as e: handler(e)] *)
Definition try_except {A} (m : M A) (handler : exn -> M A) : M A :=
  fun w =>
    match m w with
    | (inl e, w1, t1) =>
        match handler e w1 with
        | (r, w2, t2) => (r, w2, t1 ++ t2)
        end
    | (inr a, w1, t1) => (inr a, w1, t1)
    end.

Definition emit (ev : event) : M unit := fun w => (inr tt, w, [ev]).

(** A call to a collaborator, recorded with its result. *)
Definition call {A} (ev : result A -> event) (f : W -> result A * W) : M A :=
  fun w =>
    match f w with
    | (r, w1) => (r, w1, [ev r])
    end.

(** [for x in xs: body(x)] *)
Fixpoint for_each {A} (xs : list A) (body : A -> M unit) : M unit :=
  match xs with
  | [] => ret tt
  | x :: xs' => bind (body x) (fun _ => for_each xs' body)
  end.

End Run.
End Run.

Declare Scope run_scope.
Delimit Scope run_scope with run.
Notation "'let*' x ':=' m 'in' k" := (Run.bind m (fun x => k))
  (at level 10, x name, m at level 100, k at level 200) : run_scope.
Notation "'do' m 'then' k" := (Run.bind m (fun _ => k))
  (at level 10, m at level 100, k at level 200) : run_scope.

(** ** [MultiModalContentHandler] *)

Module MultiModalContentHandler.
Section Handler.
Context {W : Type} (svc : Services W).
(** [self.api_base_url], already stripped of trailing slashes *)
Variable api_base_url : string.

Local Open Scope run_scope.
Import Run.

Definition _create_file_part (task_id file_name : string)
    : M (W := W) (option File) :=
  let resource_url := api_base_url +:+ "/files/" +:+ task_id in
  try_except
    (let* content :=
       call (EvDownload resource_url) (http_get svc resource_url) in
     let mime := guess_type svc file_name in
     let* uploaded_file :=
       call (EvUpload file_name mime)
            (files_upload svc content file_name mime) in
     ret (Some uploaded_file))
    (fun e =>
       match e with
       | RequestException _ =>
           do emit (EvLogError
                      ("Failed to download file " +:+ file_name +:+ " from "
                       +:+ resource_url +:+ ": " +:+ exn_str e))
           then ret None
       | _ =>
           do emit (EvLogError
                      ("Error processing file " +:+ file_name +:+ ": "
                       +:+ exn_str e))
           then ret None
       end).

Definition _process_urls (urls : list string) : list ContentPart :=
  foldl (fun url_parts url => url_parts ++ [LinkReference url]) [] urls.

(** [if task_id and file_name] holds when both are non-empty strings; an
    uploaded file object is always true in [if file_part]. *)
Definition build_multimodal_content (text : string)
    (task_id file_name : option string)
    (detected_urls : option (list string)) : M (W := W) (list ContentPart) :=
  let content_parts := [Text text] in
  let* content_parts :=
    match task_id, file_name with
    | Some tid, Some fname =>
        if Str.truthy tid && Str.truthy fname then
          let* file_part := _create_file_part tid fname in
          match file_part with
          | Some f => ret (content_parts ++ [RemoteFile f])
          | None => ret content_parts
          end
        else ret content_parts
    | _, _ => ret content_parts
    end in
  match detected_urls with
  | Some (u :: us) => ret (content_parts ++ _process_urls (u :: us))
  | _ => ret content_parts
  end.

End Handler.
End MultiModalContentHandler.

(** ** [tenacity.retry] *)

Module Tenacity.
Section Retry.
Context {W : Type}.
Import Run.
Local Open Scope run_scope.

(** [wait_exponential(multiplier, min, max)] after attempt
    [attempt_number] *)
Definition wait_exponential (multiplier min max : N) (attempt_number : nat)
    : N :=
  N.max (N.max 0 min)
        (N.min (multiplier * 2 ^ N.of_nat (attempt_number - 1)) max).

(** The attempt [attempt_number], with [more] attempts allowed after it. *)
Fixpoint attempts {A} (wait : nat -> N) (more attempt_number : nat)
    (fn : M (W := W) A) : M (W := W) A :=
  try_except fn
    (fun e =>
       match more with
       | O => raise (RetryError e)
       | S more' =>
           do emit (EvSleep (wait attempt_number))
           then attempts wait more' (S attempt_number) fn
       end).

(** [@retry(stop=stop_after_attempt(n), wait=wait)] *)
Definition retry {A} (stop_after_attempt : nat) (wait : nat -> N)
    (fn : M (W := W) A) : M (W := W) A :=
  attempts wait (stop_after_attempt - 1) 1 fn.

End Retry.
End Tenacity.

(** ** [langgraph.graph.StateGraph], for a graph of plain edges *)

Module LangGraph.
Section Graph.
Context {W State Update : Type}.
Import Run.
Local Open Scope run_scope.

Definition END : string := "__end__".

Record StateGraph := {
  nodes : list (string * (State -> M (W := W) Update));
  entry_point : string;
  edges : list (string * string)
}.

Fixpoint assoc {V} (k : string) (l : list (string * V)) : option V :=
  match l with
  | [] => None
  | (k', v) :: l' => if String.eqb k k' then Some v else assoc k l'
  end.

(** The documented behaviour of the library for a chain of nodes: one node
    runs per super-step and its update is merged into the state;
    [recursion_limit] is the greatest number of super-steps of a run, and a
    run that has not reached [END] within it raises [GraphRecursionError]
    (here an [OtherException]).  An exception raised by a node ends the run
    and is raised by [invoke]. *)
Fixpoint run (merge : State -> Update -> State) (g : StateGraph)
    (recursion_limit : nat) (current : string) (state : State)
    : M (W := W) State :=
  if String.eqb current END then ret state
  else
    match recursion_limit with
    | O => raise (OtherException "Recursion limit reached without hitting a stop condition")
    | S limit' =>
        match assoc current (nodes g) with
        | None => raise (OtherException ("KeyError: " +:+ current))
        | Some fn =>
            let* update := fn state in
            let state' := merge state update in
            match assoc current (edges g) with
            | Some next => run merge g limit' next state'
            | None => ret state'
            end
        end
    end.

Definition invoke (merge : State -> Update -> State) (g : StateGraph)
    (state : State) (recursion_limit : nat) : M (W := W) State :=
  run merge g recursion_limit (entry_point g) state.

End Graph.
Arguments StateGraph : clear implicits.
End LangGraph.

(** ** [Agent] *)

Module Agent.

Record Config := {
  api_base_url : string;
  model_name : string;
  recursion_limit : nat
}.

Record AgentState := {
  question_text : string;
  task_id : option string;
  file_name : option string;
  detected_urls : list string;
  multimodal_content_parts : list ContentPart;
  final_answer : option string
}.

(** The dictionary a node returns: the keys it sets. *)
Record Update := {
  set_detected_urls : option (list string);
  set_multimodal_content_parts : option (list ContentPart);
  set_final_answer : option (option string)
}.

Definition no_update : Update :=
  {| set_detected_urls := None;
     set_multimodal_content_parts := None;
     set_final_answer := None |}.

Definition merge (state : AgentState) (u : Update) : AgentState :=
  {| question_text := question_text state;
     task_id := task_id state;
     file_name := file_name state;
     detected_urls := default (detected_urls state) (set_detected_urls u);
     multimodal_content_parts :=
       default (multimodal_content_parts state)
               (set_multimodal_content_parts u);
     final_answer := default (final_answer state) (set_final_answer u) |}.

(** [question_data]: an absent key is [None]. *)
Record QuestionData := {
  q_question : option string;
  q_task_id : option string;
  q_file_name : option string
}.

(** [str(x)] for a string or [None] *)
Definition py_str (x : option string) : string :=
  match x with Some s => s | None => "None" end.

Section Agent.
Context {W : Type} (svc : Services W) (config : Config).
Import Run.
Local Open Scope run_scope.

(** [api_base_url.rstrip('/')], done by the handler's constructor *)
Definition handler_base_url : string :=
  Str.of_list
    (Str.rstrip_by (Chr.eqb "/") (Str.to_list (api_base_url config))).

Definition _analyze_input (state : AgentState) : M (W := W) Update :=
  let text_content := question_text state in
  let detected_urls := URLDetector.extract_urls text_content in
  let* multimodal_content_parts :=
    MultiModalContentHandler.build_multimodal_content svc handler_base_url
      text_content (task_id state) (file_name state) (Some detected_urls) in
  ret {| set_multimodal_content_parts := Some multimodal_content_parts;
         set_detected_urls := Some detected_urls;
         set_final_answer := None |}.

(** [@retry(stop=stop_after_attempt(3),
           wait=wait_exponential(multiplier=1, min=1, max=10))] *)
Definition _generate_content_with_retry (contents : list ContentPart)
    : M (W := W) Response :=
  Tenacity.retry 3 (Tenacity.wait_exponential 1 1 10)
    (call (EvGenerate contents)
          (generate_content svc (model_name config) contents)).

Definition _call_agent (state : AgentState) : M (W := W) Update :=
  let* response :=
    _generate_content_with_retry (multimodal_content_parts state) in
  ret {| set_final_answer := Some (response_text response);
         set_detected_urls := None;
         set_multimodal_content_parts := None |}.

Definition _cleanup_files (state : AgentState) : M (W := W) Update :=
  let* files := call EvList (files_list svc) in
  do for_each files
       (fun file =>
          try_except
            (call (EvDelete (name file)) (files_delete svc (name file)))
            (fun e =>
               emit (EvLogError
                       ("Failed to delete file " +:+ name file +:+ ": "
                        +:+ exn_str e))))
  then
  let* remaining := call EvList (files_list svc) in
  do emit (EvPrint remaining)
  then ret no_update.

Definition _build_graph : LangGraph.StateGraph W AgentState Update :=
  {| LangGraph.nodes :=
       [("analyze", _analyze_input);
        ("agent", _call_agent);
        ("cleanup", _cleanup_files)];
     LangGraph.entry_point := "analyze";
     LangGraph.edges :=
       [("analyze", "agent");
        ("agent", "cleanup");
        ("cleanup", LangGraph.END)] |}.

(** "Parse input" and "Create initial state" *)
Definition initial_state (question_data : QuestionData) : AgentState :=
  let question_text := default EmptyString (q_question question_data) in
  {| question_text := question_text;
     task_id := q_task_id question_data;
     file_name := q_file_name question_data;
     detected_urls := [];
     multimodal_content_parts := [];
     final_answer := Some EmptyString |}.

Definition process_question (question_data : QuestionData)
    : M (W := W) string :=
  let initial_state := initial_state question_data in
  try_except
    (let* result :=
       LangGraph.invoke merge _build_graph initial_state
         (recursion_limit config) in
     ret (py_str (final_answer result)))
    (fun e =>
       do emit (EvLogError ("Error processing question: " +:+ exn_str e))
       then ret ("Error: " +:+ exn_str e)).

End Agent.
End Agent.

(** * Vocabulary of the statements *)

Module Spec.

Import URLDetector.

(** The invariant of a detected URL: it parses, its scheme is not empty, and
    it has a network authority or its scheme is [file]. *)
Definition DetectedURL (u : string) : Prop :=
  exists p,
    UrlParse.urlparse u = inr p
    /\ UrlParse.scheme p <> EmptyString
    /\ (UrlParse.netloc p <> EmptyString \/ UrlParse.scheme p = "file").

(** [URL_PATTERN.findall(text)] *)
Definition raw_matches (text : string) : list (list ascii) :=
  Re.findall true URL_PATTERN (Str.to_list text).

(** How many entries of [l] are the string [u]. *)
Definition occurrences (u : string) (l : list string) : nat :=
  length (filter (fun x => x = u) l).

(** A character that the class [C] of [URL_PATTERN] accepts. *)
Definition is_url_char (c : ascii) : bool :=
  Re.set_match true true url_char_excluded c.

Definition url_chars (s : string) : Prop :=
  Forall (fun c => is_url_char c = true) (Str.to_list s).

(** [s] is empty or ends with a character outside the class [C]
    (whitespace or one of the excluded delimiters). *)
Definition ends_delimited (s : string) : Prop :=
  match last (Str.to_list s) with
  | Some d => is_url_char d = false
  | None => True
  end.

(** [s] is empty or starts with a character outside the class [C]. *)
Definition starts_delimited (s : string) : Prop :=
  match s with
  | String d _ => is_url_char d = false
  | EmptyString => True
  end.

Definition delimited (post : list ascii) : Prop :=
  match post with d :: _ => is_url_char d = false | [] => True end.

(** [s] starts with a character that can open a host name. *)
Definition opens_host (s : string) : Prop :=
  match s with
  | String c _ => UrlParse.netloc_delim c = false
  | EmptyString => False
  end.

(** Every character a pattern can consume satisfies [P]. *)
Fixpoint consumes_only (ic : bool) (P : ascii -> Prop) (r : Re.regex) : Prop :=
  match r with
  | Re.Eps => True
  | Re.Lit p => forall c, Re.lit_match ic p c = true -> P c
  | Re.Set_ negated items =>
      forall c, Re.set_match ic negated items c = true -> P c
  | Re.Seq r1 r2 | Re.Alt r1 r2 =>
      consumes_only ic P r1 /\ consumes_only ic P r2
  | Re.Star r1 | Re.Plus r1 | Re.Opt r1 | Re.AtLeast _ r1 =>
      consumes_only ic P r1
  end.

(** A pattern that cannot match the empty string. *)
Fixpoint nonnull (r : Re.regex) : bool :=
  match r with
  | Re.Eps | Re.Star _ | Re.Opt _ => false
  | Re.Lit _ | Re.Set_ _ _ => true
  | Re.Seq r1 r2 => nonnull r1 || nonnull r2
  | Re.Alt r1 r2 => nonnull r1 && nonnull r2
  | Re.Plus r1 => nonnull r1
  | Re.AtLeast n r1 => nonnull r1 && (0 <? n)%nat
  end.

(** A matcher step whose every result is a suffix of its input, reached by
    consuming characters that satisfy [P] (at least one when [strict]). *)
Definition sound_step (P : ascii -> Prop) (strict : bool)
    (step : list ascii -> list (list ascii)) : Prop :=
  forall s r, In r (step s) ->
    exists w, s = w ++ r /\ Forall P w /\ (strict = true -> w <> []).

End Spec.

(** ** Reading a trace *)

Module Trace.

Definition downloads (tr : list event) : list (result (list Byte.byte)) :=
  omap (fun ev => match ev with EvDownload _ r => Some r | _ => None end) tr.

Definition uploads (tr : list event) : list (result File) :=
  omap (fun ev => match ev with EvUpload _ _ r => Some r | _ => None end) tr.

Definition generations (tr : list event) : list (result Response) :=
  omap (fun ev => match ev with EvGenerate _ r => Some r | _ => None end) tr.

Definition listings (tr : list event) : list (result (list File)) :=
  omap (fun ev => match ev with EvList r => Some r | _ => None end) tr.

Definition deletions (tr : list event) : list (string * result unit) :=
  omap (fun ev => match ev with EvDelete f r => Some (f, r) | _ => None end) tr.

Definition error_logs (tr : list event) : list string :=
  omap (fun ev => match ev with EvLogError msg => Some msg | _ => None end) tr.

Definition returned {A} (r : result A) : Prop :=
  match r with inr _ => True | inl _ => False end.

#[global] Instance returned_dec {A} (r : result A) : Decision (returned r).
Proof. destruct r; simpl; apply _. Defined.

(** The results of the attempts of one retried call that may be tried
    [more] times after the first: every attempt but the last raised, and an
    attempt that raised was the last only when no attempt was left. *)
Fixpoint retried {A} (more : nat) (rs : list (result A)) {struct rs}
    : Prop :=
  match rs with
  | [] => False
  | inr _ :: rest => rest = []
  | inl _ :: rest =>
      match more with
      | O => rest = []
      | S more' => retried more' rest
      end
  end.

End Trace.

(** The body of the loop of [_cleanup_files]: the deletion of one listed
    file, with the handler around it. *)
Definition delete_logged {W : Type} (svc : Services W) (file : File)
    : Run.M (W := W) unit :=
  Run.try_except
    (Run.call (EvDelete (name file)) (files_delete svc (name file)))
    (fun e =>
       Run.emit (EvLogError
                   ("Failed to delete file " +:+ name file +:+ ": "
                    +:+ exn_str e))).

(** The three nodes in a row, as the graph runs them when the recursion
    limit allows. *)
Definition pipeline {W : Type} (svc : Services W) (config : Agent.Config)
    (st : Agent.AgentState) : Run.M (W := W) Agent.AgentState :=
  (let* u1 := Agent._analyze_input svc config st in
   let* u2 := Agent._call_agent svc config (Agent.merge st u1) in
   let* u3 := Agent._cleanup_files svc (Agent.merge (Agent.merge st u1) u2) in
   Run.ret (Agent.merge (Agent.merge (Agent.merge st u1) u2) u3))%run.

(** What a run of the graph shows in its trace [t] and its result [r]. *)
Definition run_facts (has_file : Prop) (limit : nat)
    (r : result Agent.AgentState) (t : list event) : Prop :=
  (Trace.generations t = [] \/ Trace.retried 2 (Trace.generations t))
  /\ (length (Trace.downloads t) <= 1)%nat
  /\ length (Trace.uploads t)
     = length (filter Trace.returned (Trace.downloads t))
  /\ ((1 <= limit)%nat -> has_file -> length (Trace.downloads t) = 1%nat)
  /\ (~ has_file -> Trace.downloads t = [])
  /\ match head (Trace.listings t) with
     | Some (inr files) => map fst (Trace.deletions t) = map name files
     | _ => Trace.deletions t = []
     end
  /\ (forall f e, (f, inl e) ∈ Trace.deletions t ->
      ("Failed to delete file " +:+ f +:+ ": " +:+ exn_str e)%string
      ∈ Trace.error_logs t)
  /\ (forall e1 e2 e3,
        Trace.generations t = [inl e1; inl e2; inl e3] ->
        r = inl (RetryError e3) /\ Trace.listings t = [])
  /\ (forall resp, (3 <= limit)%nat ->
        last (Trace.generations t) = Some (inr resp) ->
        Trace.listings t <> []
        /\ (Forall Trace.returned (Trace.listings t) ->
            exists st', r = inr st'
                        /\ Agent.final_answer st' = response_text resp))
  /\ (forall st', r = inr st' ->
        exists resp,
          last (Trace.generations t) = Some (inr resp)
          /\ Agent.final_answer st' = response_text resp).

(** A question with a file reference: both [task_id] and [file_name] are
    non-empty strings. *)
Definition has_file_reference (task_id file_name : option string) : Prop :=
  match task_id, file_name with
  | Some tid, Some fname => Str.truthy tid = true /\ Str.truthy fname = true
  | _, _ => False
  end.

(** ** Worlds for the examples *)

Module Worlds.

Definition a_file : File :=
  {| name := "files/abc"; uri := "https://files.example/abc";
     mime_type := Some "image/png" |}.

Record Script := {
  download_works : bool;
  upload_works : bool;
  (** how many calls of the model fail before one succeeds *)
  model_failures : nat;
  listing_works : bool;
  deletion_works : bool
}.

(** The world state counts the calls of the model made so far. *)
Definition scripted (s : Script) : Services nat :=
  {| http_get := fun url w =>
       (if download_works s then inr []
        else inl (RequestException "503 Server Error"), w);
     files_upload := fun content display_name mime w =>
       (if upload_works s then inr a_file
        else inl (OtherException "upload failed"), w);
     files_list := fun w =>
       (if listing_works s then inr [a_file]
        else inl (OtherException "listing failed"), w);
     files_delete := fun file w =>
       (if deletion_works s then inr tt
        else inl (OtherException "deletion failed"), w);
     generate_content := fun model contents w =>
       (if (w <? model_failures s)%nat
        then inl (OtherException "model unavailable")
        else inr {| response_text := Some "Paris" |}, S w);
     guess_type := fun file_name => Some "image/png" |}.

Definition all_well : Script :=
  {| download_works := true; upload_works := true; model_failures := 0;
     listing_works := true; deletion_works := true |}.

Definition model_down : Script :=
  {| download_works := true; upload_works := true; model_failures := 3;
     listing_works := true; deletion_works := true |}.

(** The download and the deletions fail; the model answers on its third
    attempt. *)
Definition rough : Script :=
  {| download_works := false; upload_works := true; model_failures := 2;
     listing_works := true; deletion_works := false |}.

Definition config : Agent.Config :=
  {| Agent.api_base_url := "https://agents-course-unit4-scoring.hf.space";
     Agent.model_name := "gemini-2.5-flash";
     Agent.recursion_limit := 25 |}.

Definition question_with_file : Agent.QuestionData :=
  {| Agent.q_question := Some "What is shown in the image? See https://a.io/x";
     Agent.q_task_id := Some "t1";
     Agent.q_file_name := Some "pic.png" |}.

Definition question_without_file : Agent.QuestionData :=
  {| Agent.q_question := Some "What is the capital of France?";
     Agent.q_task_id := Some "t2";
     Agent.q_file_name := Some EmptyString |}.

End Worlds.

(** * Further vocabulary *)

Module More.

Import URLDetector Spec.

(** The delimiters that the class [C] excludes besides whitespace. *)
Definition delimiters : list ascii :=
  ["<"; ">"; "034"; "{"; "}"; "|"; "\"; "^"; "`"; "["; "]"]%char.

(** Neither whitespace nor one of the delimiters. *)
Definition clean_char (c : ascii) : Prop :=
  Chr.is_space c = false /\ c ∉ delimiters.

(** A full stop or a colon. *)
Definition dot_or_colon (c : ascii) : bool := Chr.eqb c "." || Chr.eqb c ":".

(** Every match of the pattern consumes a character that satisfies [Q]. *)
Fixpoint demands (ic : bool) (Q : ascii -> Prop) (r : Re.regex) : Prop :=
  match r with
  | Re.Lit p => forall c, Re.lit_match ic p c = true -> Q c
  | Re.Set_ negated items =>
      forall c, Re.set_match ic negated items c = true -> Q c
  | Re.Seq r1 r2 => demands ic Q r1 \/ demands ic Q r2
  | Re.Alt r1 r2 => demands ic Q r1 /\ demands ic Q r2
  | Re.Plus r1 => demands ic Q r1
  | Re.AtLeast n r1 => (0 < n)%nat /\ demands ic Q r1
  | Re.Eps | Re.Star _ | Re.Opt _ => False
  end.

(** A matcher step that finds before a character [d], followed by [y],
    what it finds when the text ends there. *)
Definition stops_at (d : ascii) (y : list ascii)
    (step : list ascii -> list (list ascii)) : Prop :=
  forall x, step (x ++ d :: y) = map (fun t => t ++ d :: y) (step x).

(** A matcher step whose every result is reached by consuming at least one
    character that satisfies [Q]. *)
Definition holds_some (Q : ascii -> Prop)
    (step : list ascii -> list (list ascii)) : Prop :=
  forall s rest, In rest (step s) -> exists w, s = w ++ rest /\ Exists Q w.

(** A matcher step whose every result is a suffix of its input. *)
Definition suffix_step (step : list ascii -> list (list ascii)) : Prop :=
  forall s rest, In rest (step s) -> exists w, s = w ++ rest.

(** [m] occurs in [text] as a run of consecutive characters. *)
Definition substring (m text : string) : Prop :=
  exists pre post, text = pre +:+ m +:+ post.

End More.

(** ** More readings of a trace *)

Module TraceMore.

(** The contents handed to the model, attempt by attempt. *)
Definition contents (tr : list event) : list (list ContentPart) :=
  omap (fun ev => match ev with EvGenerate c _ => Some c | _ => None end) tr.

(** The waits between attempts. *)
Definition sleeps (tr : list event) : list N :=
  omap (fun ev => match ev with EvSleep n => Some n | _ => None end) tr.

(** The files that uploads returned. *)
Definition uploaded (tr : list event) : list File :=
  omap (fun ev =>
          match ev with EvUpload _ _ (inr f) => Some f | _ => None end) tr.

(** The kinds of events of the three stages. *)
Definition assembly_event (ev : event) : Prop :=
  match ev with
  | EvDownload _ _ | EvUpload _ _ _ | EvLogError _ => True
  | _ => False
  end.

Definition model_event (ev : event) : Prop :=
  match ev with
  | EvGenerate _ _ | EvSleep _ => True
  | _ => False
  end.

Definition cleanup_event (ev : event) : Prop :=
  match ev with
  | EvList _ | EvDelete _ _ | EvLogError _ | EvPrint _ => True
  | _ => False
  end.

Definition log_event (ev : event) : Prop :=
  match ev with EvLogError _ => True | _ => False end.

(** What the assembler may do for a file reference: download the resource
    of the task, upload it under the file's name and guessed type, log. *)
Definition fetch_event {W : Type} (svc : Services W) (base : string)
    (task_id file_name : option string) (ev : event) : Prop :=
  match ev with
  | EvDownload url _ =>
      exists tid, task_id = Some tid /\ url = (base +:+ "/files/" +:+ tid)%string
  | EvUpload display_name mime _ =>
      exists fname,
        file_name = Some fname /\ display_name = fname
        /\ mime = guess_type svc fname
  | EvLogError _ => True
  | _ => False
  end.

End TraceMore.

(** The attempts of one model call and the waits between them, in the
    order in which they happen: an attempt that returns is the last one; a
    first attempt that raises is followed by a wait of one second and a
    second attempt, a second that raises by a wait of two seconds and a
    third, which is the last whatever it does.  All attempts are handed the
    same contents. *)
Definition model_schedule (tm : list event) : Prop :=
  (exists c resp, tm = [EvGenerate c (inr resp)])
  \/ (exists c e1 resp,
        tm = [EvGenerate c (inl e1); EvSleep 1; EvGenerate c (inr resp)])
  \/ (exists c e1 e2 r3,
        tm = [EvGenerate c (inl e1); EvSleep 1;
              EvGenerate c (inl e2); EvSleep 2; EvGenerate c r3]).

(** What the three stages of a run leave in its trace, [ta] by the
    assembly, [tm] by the model call and [tc] by cleanup, and what the
    listings of cleanup make of the model's answer. *)
Definition stage_facts (question : string) (limit : nat)
    (r : result Agent.AgentState) (ta tm tc : list event) : Prop :=
  Forall TraceMore.assembly_event ta
  /\ Forall TraceMore.model_event tm
  /\ Forall TraceMore.cleanup_event tc
  /\ Forall (fun c =>
              c = Text question
                  :: map RemoteFile (TraceMore.uploaded ta)
                  ++ map LinkReference (URLDetector.extract_urls question))
           (TraceMore.contents tm)
  /\ TraceMore.sleeps tm
     = take (length (Trace.generations tm) - 1) [1; 2]%N
  /\ (forall e, r = inl e ->
      Trace.generations tm = []
      \/ (exists e1 e2 e3,
            Trace.generations tm = [inl e1; inl e2; inl e3]
            /\ e = RetryError e3)
      \/ (exists resp, last (Trace.generations tm) = Some (inr resp)))
  /\ (forall resp, (3 <= limit)%nat ->
        last (Trace.generations tm) = Some (inr resp) ->
        (exists e,
           Trace.listings tc = [inl e] /\ Trace.deletions tc = []
           /\ r = inl e)
        \/ (exists fs e, Trace.listings tc = [inr fs; inl e] /\ r = inl e)
        \/ (exists fs fs' st',
              Trace.listings tc = [inr fs; inr fs'] /\ r = inr st'
              /\ Agent.final_answer st' = response_text resp))
  /\ (tm = [] \/ model_schedule tm).

(** * Configuration

    [config.py] reads the settings from the environment; the constructor of
    the agent overrides some of them with its arguments, refuses a
    configuration without an API key and switches tracing on. *)

Module Environ.

(** [os.environ]: the variables that are set, with their values. *)
Abbreviation environ := (gmap string string).

(** [os.getenv(key)] *)
Definition getenv (env : environ) (key : string) : option string :=
  env !! key.

(** [os.getenv(key, fallback)] *)
Definition getenv_or (env : environ) (key fallback : string) : string :=
  default fallback (env !! key).

(** A value that can be stored: a text without a null byte. *)
Definition storable (value : string) : bool :=
  negb (Str.has_char "000"%char (Str.to_list value)).

(** [os.environ[key] = value], for a key that is a plain name.  A value
    that holds a null byte is refused with a [ValueError]. *)
Definition setenv (key value : string) (env : environ) : result environ :=
  if storable value then inr (<[key := value]> env)
  else inl (OtherException "embedded null byte").

(** An environment as a process has it: every value can be stored. *)
Definition proper (env : environ) : Prop :=
  map_Forall (fun _ value => storable value = true) env.

End Environ.

(** What the loggers of [config.py] are given. *)
Inductive log_record :=
| LogInfo (msg : string)
| LogWarning (msg : string)
| LogError (msg : string).

(** [bool(x)] for a string or [None] *)
Definition opt_truthy (x : option string) : bool :=
  match x with Some s => Str.truthy s | None => false end.

Module Configuration.

Import Environ.

Record Config {F : Type} := {
  gemini_api_key : option string;
  api_base_url : string;
  langsmith_tracing : bool;
  langsmith_api_key : option string;
  langsmith_endpoint : string;
  langsmith_project : string;
  model_name : string;
  temperature : F;
  max_output_tokens : Z;
  max_iterations : Z;
  recursion_limit : Z;
  log_level : string
}.
Arguments Config : clear implicits.

Section Config.
(** [float] and [int] applied to a string: the number, or the [ValueError]
    they raise. *)
Context {F : Type} (float : string -> result F) (int : string -> result Z).

(** [Config()] *)
Definition __init__ (env : environ) : result (Config F) :=
  let gemini_api_key := getenv env "GEMINI_API_KEY" in
  let api_base_url :=
    getenv_or env "API_BASE_URL"
      "https://agents-course-unit4-scoring.hf.space" in
  let langsmith_tracing :=
    String.eqb
      (Str.of_list
         (Str.lower (Str.to_list (getenv_or env "LANGSMITH_TRACING" "false"))))
      "true" in
  let langsmith_api_key := getenv env "LANGSMITH_API_KEY" in
  let langsmith_endpoint :=
    getenv_or env "LANGSMITH_ENDPOINT" "https://api.smith.langchain.com" in
  let langsmith_project :=
    getenv_or env "LANGSMITH_PROJECT" "hf-agent-cert" in
  let model_name := getenv_or env "GEMINI_MODEL" "gemini-2.5-flash" in
  match float (getenv_or env "TEMPERATURE" "0.1") with
  | inl e => inl e
  | inr temperature =>
  match int (getenv_or env "MAX_OUTPUT_TOKENS" "4096") with
  | inl e => inl e
  | inr max_output_tokens =>
  match int (getenv_or env "MAX_ITERATIONS" "6") with
  | inl e => inl e
  | inr max_iterations =>
  match int (getenv_or env "RECURSION_LIMIT" "25") with
  | inl e => inl e
  | inr recursion_limit =>
      inr {| gemini_api_key := gemini_api_key;
             api_base_url := api_base_url;
             langsmith_tracing := langsmith_tracing;
             langsmith_api_key := langsmith_api_key;
             langsmith_endpoint := langsmith_endpoint;
             langsmith_project := langsmith_project;
             model_name := model_name;
             temperature := temperature;
             max_output_tokens := max_output_tokens;
             max_iterations := max_iterations;
             recursion_limit := recursion_limit;
             log_level := getenv_or env "LOG_LEVEL" "INFO" |}
  end end end end.

(** One assignment to [os.environ] followed by the rest of the method: an
    assignment that raises leaves the earlier ones in place. *)
Definition set_then (key value : string)
    (rest : environ -> result bool * environ * list log_record)
    (env : environ) : result bool * environ * list log_record :=
  match setenv key value env with
  | inl e => (inl e, env, [])
  | inr env1 => rest env1
  end.

(** [config.setup_langsmith()]: the value returned, the environment it
    leaves and what it logs. *)
Definition setup_langsmith (self : Config F) (env : environ)
    : result bool * environ * list log_record :=
  if langsmith_tracing self && opt_truthy (langsmith_api_key self) then
    set_then "LANGCHAIN_TRACING_V2" "true"
      (set_then "LANGCHAIN_API_KEY"
         (default EmptyString (langsmith_api_key self))
         (set_then "LANGCHAIN_ENDPOINT" (langsmith_endpoint self)
            (set_then "LANGCHAIN_PROJECT" (langsmith_project self)
               (fun env4 =>
                  (inr true, env4,
                   [LogInfo ("LangSmith tracing enabled for project: "
                             +:+ langsmith_project self)])))))
      env
  else
    (inr false, env,
     if langsmith_tracing self && negb (opt_truthy (langsmith_api_key self))
     then [LogWarning
             "LangSmith tracing requested but LANGSMITH_API_KEY not set"]
     else []).

(** The names that [setup_langsmith] assigns to. *)
Definition tracing_names : list string :=
  ["LANGCHAIN_TRACING_V2"; "LANGCHAIN_API_KEY"; "LANGCHAIN_ENDPOINT";
   "LANGCHAIN_PROJECT"].

(** [config.validate()] *)
Definition validate (self : Config F) : bool * list log_record :=
  if negb (opt_truthy (gemini_api_key self))
  then (false, [LogError "GEMINI_API_KEY is required but not set"])
  else (true, []).

End Config.
End Configuration.

(** ** The constructor of the agent *)

Module AgentObject.

Import Environ Configuration.

(** The attributes of an agent; [C] is the type of the client. *)
Record Agent {F C : Type} := {
  config : Config F;
  api_key : option string;
  api_base_url : string;
  model_name : string;
  genai_client : C
}.
Arguments Agent : clear implicits.

Section Agent.
Context {F C : Type} (float : string -> result F) (int : string -> result Z).
(** [Client(api_key=...)] of the model's library: the client, or the
    exception it raises. *)
Variable Client : option string -> result C.

(** [if value: self.config.<field> = value] *)
Definition override (given : option string) (current : string) : string :=
  match given with
  | Some value => if Str.truthy value then value else current
  | None => current
  end.

Definition override_key (given current : option string) : option string :=
  if opt_truthy given then given else current.

(** [Agent(api_key, api_base_url, model_name)], up to the construction of
    the client: the agent or the exception raised, the environment left
    behind and the log. *)
Definition __init__ (api_key api_base_url model_name : option string)
    (env : environ) : result (Agent F C) * environ * list log_record :=
  match Configuration.__init__ float int env with
  | inl e => (inl e, env, [])
  | inr config0 =>
      let config1 :=
        {| gemini_api_key := override_key api_key (gemini_api_key config0);
           Configuration.api_base_url :=
             override api_base_url (Configuration.api_base_url config0);
           langsmith_tracing := langsmith_tracing config0;
           langsmith_api_key := langsmith_api_key config0;
           langsmith_endpoint := langsmith_endpoint config0;
           langsmith_project := langsmith_project config0;
           Configuration.model_name :=
             override model_name (Configuration.model_name config0);
           temperature := temperature config0;
           max_output_tokens := max_output_tokens config0;
           max_iterations := max_iterations config0;
           recursion_limit := recursion_limit config0;
           log_level := log_level config0 |} in
      match validate config1 with
      | (false, log1) =>
          (inl (OtherException "Invalid configuration"), env, log1)
      | (true, log1) =>
          match setup_langsmith config1 env with
          | (inl e, env1, log2) => (inl e, env1, log1 ++ log2)
          | (inr _, env1, log2) =>
              match Client (gemini_api_key config1) with
              | inl e => (inl e, env1, log1 ++ log2)
              | inr client =>
                  (inr {| config := config1;
                          api_key := gemini_api_key config1;
                          api_base_url := Configuration.api_base_url config1;
                          model_name := Configuration.model_name config1;
                          genai_client := client |},
                   env1, log1 ++ log2)
              end
          end
      end
  end.

(** What the methods of the agent read of it: the handler is built on
    [self.api_base_url], the model call names [self.model_name] and the
    graph runs under [self.config.recursion_limit]. *)
Definition run_config (self : Agent F C) : Agent.Config :=
  {| Agent.api_base_url := api_base_url self;
     Agent.model_name := model_name self;
     Agent.recursion_limit := Z.to_nat (recursion_limit (config self)) |}.

End Agent.
End AgentObject.

(** The condition under which [setup_langsmith] switches tracing on, read
    from the environment that [Config()] saw: [LANGSMITH_TRACING] is [true]
    in any case of letters and [LANGSMITH_API_KEY] is not empty. *)
Definition tracing_on (env : Environ.environ) : bool :=
  String.eqb
    (Str.of_list
       (Str.lower
          (Str.to_list (Environ.getenv_or env "LANGSMITH_TRACING" "false"))))
    "true"
  && opt_truthy (Environ.getenv env "LANGSMITH_API_KEY").

(** ** Settings for the examples *)

Module Settings.

Import Environ.

(** A reading of unsigned decimal numerals. *)
Fixpoint digits (acc : Z) (s : list ascii) : option Z :=
  match s with
  | [] => Some acc
  | c :: s' =>
      if Chr.is_digit c
      then digits (10 * acc + Z.of_N (Chr.code c) - 48)%Z s'
      else None
  end.

Definition int (s : string) : result Z :=
  match s with
  | EmptyString => inl (OtherException "invalid literal for int()")
  | _ =>
      match digits 0 (Str.to_list s) with
      | Some n => inr n
      | None => inl (OtherException "invalid literal for int()")
      end
  end.

(** The examples keep a decimal fraction as its numeral. *)
Definition float (s : string) : result string :=
  match s with
  | EmptyString => inl (OtherException "could not convert string to float")
  | _ => inr s
  end.

(** A client that remembers its key. *)
Definition Client (api_key : option string) : result (option string) :=
  inr api_key.

(** Tracing is asked for and has its key; the base URL ends with a slash. *)
Definition traced : environ :=
  {[ "GEMINI_API_KEY" := "g-key";
     "API_BASE_URL" := "https://scoring.example/";
     "LANGSMITH_TRACING" := "True";
     "LANGSMITH_API_KEY" := "ls-key";
     "RECURSION_LIMIT" := "30" ]}.

(** No key for the model, and an empty model name. *)
Definition keyless : environ :=
  {[ "GEMINI_MODEL" := EmptyString; "LANGSMITH_TRACING" := "true" ]}.

End Settings.

(** * The matcher *)

Module ReFacts.

Import Re Spec.

Section Sound.
Variable ic : bool.
Variable P : ascii -> Prop.

Lemma sound_step_weaken strict step :
  sound_step P strict step -> sound_step P false step.
Proof.
  intros H s r Hr. destruct (H s r Hr) as (w & -> & Hw & _).
  exists w. repeat split; [done|discriminate].
Qed.

Lemma one_sound (p : ascii -> bool) :
  (forall c, p c = true -> P c) -> sound_step P true (one p).
Proof.
  intros Hp [|c s] r; simpl; [tauto|].
  destruct (p c) eqn:Hc; simpl; [|tauto].
  intros [<-|[]]. exists [c]. repeat split; [|done].
  constructor; [auto|constructor].
Qed.

Lemma seq_sound a b step1 step2 :
  sound_step P a step1 -> sound_step P b step2 ->
  sound_step P (a || b) (fun s => flat_map step2 (step1 s)).
Proof.
  intros H1 H2 s r Hr. apply in_flat_map in Hr as (m & Hm & Hr).
  destruct (H1 _ _ Hm) as (w1 & -> & Hw1 & N1).
  destruct (H2 _ _ Hr) as (w2 & -> & Hw2 & N2).
  exists (w1 ++ w2). rewrite <- app_assoc. repeat split.
  - by apply Forall_app.
  - intros Hab Hnil. apply app_eq_nil in Hnil as [-> ->].
    destruct a; [by apply N1|]. destruct b; [by apply N2|discriminate].
Qed.

Lemma alt_sound a b step1 step2 :
  sound_step P a step1 -> sound_step P b step2 ->
  sound_step P (a && b) (fun s => step1 s ++ step2 s).
Proof.
  intros H1 H2 s r Hr. apply in_app_iff in Hr as [Hr|Hr].
  - destruct (H1 _ _ Hr) as (w & -> & Hw & N). exists w. repeat split; [done|].
    intros Hab. apply N. by destruct a.
  - destruct (H2 _ _ Hr) as (w & -> & Hw & N). exists w. repeat split; [done|].
    intros Hab. apply N. destruct a, b; done.
Qed.

Lemma opt_sound a step :
  sound_step P a step -> sound_step P false (fun s => step s ++ [s]).
Proof.
  intros H s r Hr. apply in_app_iff in Hr as [Hr|[<-|[]]].
  - destruct (H _ _ Hr) as (w & -> & Hw & _). exists w. by repeat split.
  - exists []. by repeat split.
Qed.

Lemma star_from_sound a step fuel :
  sound_step P a step -> sound_step P false (star_from step fuel).
Proof.
  intros H. induction fuel as [|fuel IH]; intros s r; simpl.
  - intros [<-|[]]. exists []. by repeat split.
  - intros Hr. apply in_app_iff in Hr as [Hr|[<-|[]]].
    + apply in_flat_map in Hr as (m & Hm & Hr).
      destruct (length m <? length s)%nat; [|destruct Hr].
      destruct (H _ _ Hm) as (w1 & -> & Hw1 & _).
      destruct (IH _ _ Hr) as (w2 & -> & Hw2 & _).
      exists (w1 ++ w2). rewrite <- app_assoc. repeat split; [|done].
      by apply Forall_app.
    + exists []. by repeat split.
Qed.

Lemma star_sound a step :
  sound_step P a step -> sound_step P false (star step).
Proof. intros H s r. unfold star. by apply (star_from_sound a). Qed.

Lemma at_least_sound a step n :
  sound_step P a step -> sound_step P (a && (0 <? n)%nat) (at_least step n).
Proof.
  intros H. induction n as [|n IH]; simpl.
  - rewrite andb_false_r. by apply (star_sound a).
  - rewrite andb_true_r.
    pose proof (seq_sound _ _ _ _ H IH) as Hs.
    intros s r Hr. destruct (Hs s r Hr) as (w & -> & Hw & N).
    exists w. repeat split; [done|]. intros Ha. apply N. by rewrite Ha.
Qed.

Lemma rests_sound r :
  consumes_only ic P r -> sound_step P (nonnull r) (rests ic r).
Proof.
  induction r as [|p|neg items|r1 IH1 r2 IH2|r1 IH1 r2 IH2
                  |r1 IH1|r1 IH1|r1 IH1|n r1 IH1]; simpl; intros C.
  - intros s r [<-|[]]. exists []. by repeat split.
  - by apply one_sound.
  - by apply one_sound.
  - destruct C. apply seq_sound; auto.
  - destruct C. apply alt_sound; auto.
  - apply (star_sound (nonnull r1)); auto.
  - pose proof (seq_sound _ _ _ _ (IH1 C) (star_sound _ _ (IH1 C))) as Hs.
    intros s r Hr. destruct (Hs s r Hr) as (w & -> & Hw & N).
    exists w. repeat split; [done|]. intros Ha. apply N. by rewrite Ha.
  - apply (opt_sound (nonnull r1)); auto.
  - apply at_least_sound; auto.
Qed.

End Sound.

(** ** Scanning with a pattern that never matches the empty string *)

Section Scan.
Variable ic : bool.
Variable P : ascii -> Prop.
Variable r : regex.
Hypothesis r_sound : sound_step P true (rests ic r).

Lemma rests_shorter s rest l :
  rests ic r s = rest :: l -> (length rest < length s)%nat.
Proof.
  intros E. destruct (r_sound s rest) as (w & -> & _ & N).
  { rewrite E. by left. }
  specialize (N eq_refl). rewrite length_app. destruct w; [done|simpl; lia].
Qed.

Lemma findall_from_fuel f1 f2 s :
  (length s < f1)%nat -> (length s < f2)%nat ->
  findall_from ic r f1 false s = findall_from ic r f2 false s.
Proof.
  revert f2 s. induction f1 as [|f1 IH]; intros [|f2] s H1 H2; try lia.
  simpl. destruct (rests ic r s) as [|rest l] eqn:E.
  - destruct s as [|c s]; [done|]. simpl in *. apply IH; lia.
  - pose proof (rests_shorter _ _ _ E) as Hlt.
    replace (length rest =? length s)%nat with false
      by (symmetry; apply Nat.eqb_neq; lia).
    f_equal. apply IH; lia.
Qed.

Lemma findall_step s :
  findall ic r s =
  match rests ic r s with
  | rest :: _ => consumed s rest :: findall ic r rest
  | [] => match s with [] => [] | _ :: s' => findall ic r s' end
  end.
Proof.
  unfold findall at 1.
  replace (2 * length s + 2)%nat with (S (2 * length s + 1)) by lia.
  simpl. destruct (rests ic r s) as [|rest l] eqn:E.
  - destruct s as [|c s]; [done|]. unfold findall.
    apply findall_from_fuel; simpl; lia.
  - pose proof (rests_shorter _ _ _ E) as Hlt.
    replace (length rest =? length s)%nat with false
      by (symmetry; apply Nat.eqb_neq; lia).
    f_equal. unfold findall. apply findall_from_fuel; lia.
Qed.

(** A match cannot run over a character that the pattern never consumes. *)
Lemma split_at_delimiter (w p rest s : list ascii) d :
  p ++ d :: s = w ++ rest -> Forall P w -> ~ P d ->
  exists p2, p = w ++ p2 /\ rest = p2 ++ d :: s.
Proof.
  revert p. induction w as [|c w IH]; intros p E Hw Hd; simpl in *.
  - exists p. by split.
  - apply Forall_cons in Hw as [Hc Hw].
    destruct p as [|c' p]; simpl in E; injection E as -> E.
    + by destruct Hd.
    + destruct (IH p E Hw Hd) as (p2 & -> & ->). by exists p2.
Qed.

(** Whatever precedes such a character, the scan resumes right after it. *)
Lemma findall_resumes d s :
  ~ P d -> forall p, exists ms,
    findall ic r (p ++ d :: s) = ms ++ findall ic r s.
Proof.
  intros Hd p.
  induction p as [p IH] using (induction_ltof1 _ (@length ascii)).
  unfold ltof in IH. rewrite findall_step.
  destruct (rests ic r (p ++ d :: s)) as [|rest l] eqn:E.
  - destruct p as [|c p]; simpl.
    + by exists [].
    + apply IH. simpl; lia.
  - destruct (r_sound (p ++ d :: s) rest) as (w & Ew & Hw & N).
    { rewrite E. by left. }
    destruct (split_at_delimiter _ _ _ _ _ Ew Hw Hd) as (p2 & -> & ->).
    specialize (N eq_refl).
    destruct (IH p2) as (ms & ->).
    { rewrite length_app. destruct w; [done|simpl; lia]. }
    by eexists (_ :: ms).
Qed.

(** The scan finds a match that starts at the beginning of the text or right
    after a character the pattern never consumes. *)
Lemma findall_finds pre u post l :
  match last pre with Some d => ~ P d | None => True end ->
  rests ic r (u ++ post) = post :: l ->
  u ∈ findall ic r (pre ++ u ++ post).
Proof.
  intros Hpre E.
  assert (Hhere : u ∈ findall ic r (u ++ post)).
  { rewrite findall_step, E. unfold consumed.
    rewrite length_app, Nat.add_sub, take_app_length. by left. }
  destruct pre as [|c pre _] using rev_ind; [done|].
  rewrite last_snoc in Hpre. rewrite <- app_assoc. simpl.
  destruct (findall_resumes c (u ++ post) Hpre pre) as (ms & ->).
  apply elem_of_app. by right.
Qed.

(** Every match consists of characters the pattern consumes. *)
Lemma findall_chars s m : m ∈ findall ic r s -> Forall P m.
Proof.
  induction s as [s IH] using (induction_ltof1 _ (@length ascii)).
  unfold ltof in IH. rewrite findall_step.
  destruct (rests ic r s) as [|rest l] eqn:E.
  - destruct s as [|c s]; [by intros ?%elem_of_nil|].
    apply IH. simpl; lia.
  - destruct (r_sound s rest) as (w & -> & Hw & _).
    { rewrite E. by left. }
    intros [->|Hm]%elem_of_cons.
    + unfold consumed. by rewrite length_app, Nat.add_sub, take_app_length.
    + revert Hm. apply IH. by eapply rests_shorter.
Qed.

End Scan.

(** ** Greedy repetition of a character class *)

Section Greedy.
Variable p : ascii -> bool.

Lemma star_one_cons c s :
  p c = true -> star (one p) (c :: s) = star (one p) s ++ [c :: s].
Proof.
  intros Hc. unfold star. simpl length.
  change (star_from (one p) (S (S (length s))) (c :: s))
    with (flat_map
            (fun s' =>
               if (length s' <? length (c :: s))%nat
               then star_from (one p) (S (length s)) s' else [])
            (one p (c :: s)) ++ [c :: s]).
  simpl one. rewrite Hc. cbn [flat_map].
  replace (length s <? length (c :: s))%nat with true
    by (symmetry; apply Nat.ltb_lt; simpl; lia).
  by rewrite app_nil_r.
Qed.

Lemma star_one_stop post :
  match post with d :: _ => p d = false | [] => True end ->
  star (one p) post = [post].
Proof.
  intros H. unfold star. simpl.
  destruct post as [|d post]; simpl; [done|]. by rewrite H.
Qed.

Lemma star_one_greedy body post :
  Forall (fun c => p c = true) body ->
  match post with d :: _ => p d = false | [] => True end ->
  exists l, star (one p) (body ++ post) = post :: l.
Proof.
  intros Hb Hpost. induction Hb as [|c body Hc Hb IH]; simpl.
  - exists []. by apply star_one_stop.
  - destruct IH as (l & E). rewrite star_one_cons, E by done.
    by eexists.
Qed.

Lemma plus_one_greedy c body post :
  Forall (fun c => p c = true) (c :: body) ->
  match post with d :: _ => p d = false | [] => True end ->
  exists l, flat_map (star (one p)) (one p (c :: body ++ post)) = post :: l.
Proof.
  intros Hb Hpost. apply Forall_cons in Hb as [Hc Hb].
  simpl. rewrite Hc. simpl. rewrite app_nil_r.
  by apply star_one_greedy.
Qed.

End Greedy.

End ReFacts.

(** * The URL detector *)

Module DetectorFacts.

Import URLDetector Spec.

Lemma to_list_app (a b : string) :
  Str.to_list (a +:+ b) = Str.to_list a ++ Str.to_list b.
Proof.
  induction a as [|c a IH]; [done|].
  change (String c a +:+ b) with (String c (a +:+ b)).
  simpl. by rewrite <- IH.
Qed.

Lemma to_of_list (l : list ascii) : Str.to_list (Str.of_list l) = l.
Proof. apply list_ascii_of_string_of_list_ascii. Qed.

Lemma of_to_list (s : string) : Str.of_list (Str.to_list s) = s.
Proof. apply string_of_list_ascii_of_string. Qed.

Lemma truthy_nonempty (s : string) :
  Str.truthy s = true <-> s <> EmptyString.
Proof. destruct s; simpl; split; congruence. Qed.

(** The loop collects, in order, the candidates that pass validation. *)
Lemma collect_filter (acc : list string) (ms : list (list ascii)) :
  foldl visit acc ms
  = acc ++ filter (fun u => keeps u = true) (map candidate ms).
Proof.
  revert acc. induction ms as [|m ms IH]; intros acc; simpl.
  - by rewrite app_nil_r.
  - rewrite IH. unfold visit, filter at 2. simpl.
    destruct (keeps (candidate m)) eqn:E.
    + rewrite decide_True by done. by rewrite <- app_assoc.
    + rewrite decide_False by congruence. done.
Qed.

Lemma keeps_DetectedURL (u : string) : keeps u = true <-> DetectedURL u.
Proof.
  unfold keeps, DetectedURL. destruct (UrlParse.urlparse u) as [e|p].
  - split; [discriminate|]. by intros (p & Hp & _).
  - rewrite andb_true_iff, orb_true_iff, !truthy_nonempty, bool_decide_eq_true.
    split.
    + intros (Hs & Hn). by exists p.
    + intros (p' & [= <-] & Hs & Hn). by split.
Qed.

(** What [extract_urls] returns: exactly the validated candidates. *)
Lemma elem_of_extract_urls (text u : string) :
  u ∈ extract_urls text
  <-> exists m, m ∈ raw_matches text /\ u = candidate m /\ DetectedURL u.
Proof.
  unfold extract_urls, raw_matches, list_of_set.
  destruct text as [|c text]; simpl negb; cbv iota.
  - split; [by intros ?%elem_of_nil|]. intros (m & Hm & _).
    vm_compute in Hm. by apply elem_of_nil in Hm.
  - rewrite elem_of_elements, elem_of_list_to_set, collect_filter.
    simpl app. rewrite list_elem_of_filter, list_elem_of_fmap.
    rewrite keeps_DetectedURL. split.
    + intros (Hu & m & -> & Hm). by exists m.
    + intros (m & Hm & -> & Hu). split; [done|]. by exists m.
Qed.

Lemma NoDup_extract_urls (text : string) : NoDup (extract_urls text).
Proof.
  unfold extract_urls, list_of_set. destruct (negb (Str.truthy text)).
  - constructor.
  - apply NoDup_elements.
Qed.

Lemma occurrences_absent (u : string) (l : list string) :
  u ∉ l -> occurrences u l = 0%nat.
Proof.
  unfold occurrences. induction l as [|x l IH]; intros Hu; [done|].
  apply not_elem_of_cons in Hu as [Hne Hu].
  rewrite filter_cons, decide_False by congruence. auto.
Qed.

Lemma occurrences_NoDup (u : string) (l : list string) :
  NoDup l -> u ∈ l -> occurrences u l = 1%nat.
Proof.
  induction 1 as [|x l Hx Hl IH]; intros Hu.
  - by apply elem_of_nil in Hu.
  - unfold occurrences. rewrite filter_cons.
    destruct (decide (x = u)) as [->|Hne].
    + simpl. f_equal. by apply occurrences_absent.
    + apply elem_of_cons in Hu as [->|Hu]; [done|]. by apply IH.
Qed.

(** ** Characters of the pattern *)

Ltac by_chars :=
  intros [[] [] [] [] [] [] [] []]; vm_compute; intros;
  first [reflexivity | discriminate].

Lemma url_char_not_space c : is_url_char c = true -> Chr.is_space c = false.
Proof. revert c. by_chars. Qed.

Lemma url_char_safe c :
  is_url_char c = true -> UrlParse.unsafe_byte c = false.
Proof. revert c. by_chars. Qed.

Lemma url_char_not_lbracket c : is_url_char c = true -> Chr.eqb "[" c = false.
Proof. revert c. by_chars. Qed.

Lemma url_char_not_rbracket c : is_url_char c = true -> Chr.eqb "]" c = false.
Proof. revert c. by_chars. Qed.

Lemma dot_is_url_char c :
  Re.lit_match true "." c = true -> is_url_char c = true.
Proof. revert c. by_chars. Qed.

Lemma URL_PATTERN_consumes :
  consumes_only true (fun c => is_url_char c = true) URL_PATTERN.
Proof. cbn. repeat split; by_chars. Qed.

Lemma URL_PATTERN_sound :
  sound_step (fun c => is_url_char c = true) true (Re.rests true URL_PATTERN).
Proof. apply (ReFacts.rests_sound _ _ _ URL_PATTERN_consumes). Qed.

(** A raw match is made of characters of the class [C]; in particular it
    holds no whitespace and no bracket. *)
Lemma raw_match_chars (text : string) (m : list ascii) :
  m ∈ raw_matches text -> Forall (fun c => is_url_char c = true) m.
Proof. apply (ReFacts.findall_chars _ _ _ URL_PATTERN_sound). Qed.

(** ** [strip] leaves a text without whitespace alone *)

Lemma lstrip_by_id p (s : list ascii) :
  Forall (fun c => p c = false) s -> Str.lstrip_by p s = s.
Proof. destruct 1 as [|c s Hc _]; simpl; [done|]. by rewrite Hc. Qed.

Lemma strip_id (s : list ascii) :
  Forall (fun c => is_url_char c = true) s -> Str.strip s = s.
Proof.
  intros H.
  assert (Hs : Forall (fun c => Chr.is_space c = false) s).
  { eapply Forall_impl; [exact H|]. apply url_char_not_space. }
  unfold Str.strip, Str.rstrip_by. rewrite (lstrip_by_id _ s Hs).
  rewrite lstrip_by_id by by apply Forall_reverse.
  apply reverse_involutive.
Qed.

(** ** Matching a web address that ends at a delimiter *)

Lemma web_tail_greedy c body post :
  Forall (fun c => is_url_char c = true) (c :: body) -> delimited post ->
  exists l, Re.rests true web_tail (c :: body ++ post) = post :: l.
Proof.
  intros Hb Hpost.
  destruct (ReFacts.plus_one_greedy is_url_char c body post Hb Hpost)
    as (l & E).
  unfold web_tail.
  change (Re.rests true (Re.Seq (Re.Plus url_char) ?r) ?s)
    with (flat_map (Re.rests true r)
            (flat_map (Re.star (Re.one is_url_char)) (Re.one is_url_char s))).
  rewrite E. cbn [flat_map].
  assert (Hstop : Re.rests true
                    (Re.Star (Re.Seq (Re.Lit ".") (Re.Plus url_char))) post
                  = [post]).
  { destruct post as [|d post]; [reflexivity|]. simpl in Hpost.
    cbn -[Re.lit_match url_char Re.star].
    unfold Re.star. cbn [length Re.star_from Re.one].
    destruct (Re.lit_match true "." d) eqn:Hd; [|reflexivity].
    apply dot_is_url_char in Hd. congruence. }
  rewrite Hstop. by eexists.
Qed.

Lemma web_prefix_https t :
  Re.rests true web_prefix (Str.to_list "https://" ++ t) = [t].
Proof. vm_compute. reflexivity. Qed.

Lemma web_prefix_www t :
  Re.rests true web_prefix (Str.to_list "www." ++ t) = [t].
Proof. vm_compute. reflexivity. Qed.

(** The pattern matches, first of all, the whole address up to the
    delimiter. *)
Lemma URL_PATTERN_web prefix c body post :
  Re.rests true web_prefix (prefix ++ c :: body ++ post) = [c :: body ++ post] ->
  Forall (fun c => is_url_char c = true) (c :: body) -> delimited post ->
  exists l,
    Re.rests true URL_PATTERN ((prefix ++ c :: body) ++ post) = post :: l.
Proof.
  intros Hp Hb Hpost. destruct (web_tail_greedy c body post Hb Hpost) as (l & E).
  rewrite <- app_assoc. simpl app.
  change (Re.rests true URL_PATTERN ?s)
    with (flat_map (Re.rests true web_tail) (Re.rests true web_prefix s)
          ++ Re.rests true (Re.Alt pat_domain (Re.Alt pat_file pat_data)) s).
  rewrite Hp. cbn [flat_map]. rewrite E. by eexists.
Qed.

Lemma ends_delimited_last (pre : string) :
  ends_delimited pre ->
  match last (Str.to_list pre) with
  | Some d => ~ is_url_char d = true
  | None => True
  end.
Proof.
  unfold ends_delimited. destruct (last (Str.to_list pre)); [|done].
  intros ->. discriminate.
Qed.

Lemma starts_delimited_list (post : string) :
  starts_delimited post -> delimited (Str.to_list post).
Proof. by destruct post. Qed.

(** A web address standing between delimiters is one of the raw matches. *)
Lemma raw_match_web (pre post : string) prefix c body :
  (forall t, Re.rests true web_prefix (prefix ++ t) = [t]) ->
  Forall (fun c => is_url_char c = true) (c :: body) ->
  ends_delimited pre -> starts_delimited post ->
  prefix ++ c :: body
  ∈ raw_matches (pre +:+ Str.of_list (prefix ++ c :: body) +:+ post).
Proof.
  intros Hp Hb Hpre Hpost. unfold raw_matches.
  rewrite !to_list_app, to_of_list.
  destruct (URL_PATTERN_web prefix c body (Str.to_list post)) as (l & E);
    [apply Hp|done|by apply starts_delimited_list|].
  eapply (ReFacts.findall_finds _ _ _ URL_PATTERN_sound); [|exact E].
  by apply ends_delimited_last.
Qed.

(** ** An [https://] address: normalization and validation *)

Lemma https_chars : Forall (fun c => is_url_char c = true) (Str.to_list "https://").
Proof. repeat constructor. Qed.

Lemma has_scheme_prefix_https t :
  has_scheme_prefix (Str.to_list "https://" ++ t) = true.
Proof.
  unfold has_scheme_prefix, Re.match_. apply bool_decide_eq_true.
  set (cls := Re.set_match false false
                [Re.IRange "a" "z"; Re.IRange "A" "Z"; Re.IDigit;
                 Re.IChar "+"; Re.IChar "-"; Re.IChar "."]).
  destruct (ReFacts.star_one_greedy cls (Str.to_list "ttps")
              (Str.to_list "://" ++ t)) as (l & E).
  { repeat constructor. }
  { reflexivity. }
  change (Re.rests false SCHEME_PREFIX (Str.to_list "https://" ++ t))
    with (flat_map (Re.one (Re.lit_match false ":"))
            (Re.star (Re.one cls)
               (Str.to_list "ttps" ++ Str.to_list "://" ++ t)) ++ []).
  rewrite E. simpl. eauto.
Qed.

Lemma candidate_https body :
  Forall (fun c => is_url_char c = true) body ->
  candidate (Str.to_list "https://" ++ body)
  = Str.of_list (Str.to_list "https://" ++ body).
Proof.
  intros Hb. unfold candidate, add_protocol.
  rewrite strip_id by (apply Forall_app; split; [apply https_chars|done]).
  by rewrite has_scheme_prefix_https.
Qed.

Lemma filter_safe_id (l : list ascii) :
  Forall (fun c => is_url_char c = true) l ->
  filter (fun c => UrlParse.unsafe_byte c = false) l = l.
Proof.
  induction 1 as [|c l Hc _ IH]; [done|].
  rewrite filter_cons, decide_True by by apply url_char_safe.
  by rewrite IH.
Qed.

Lemma take_until_chars p (l : list ascii) :
  Forall (fun c => is_url_char c = true) l ->
  Forall (fun c => is_url_char c = true) (UrlParse.take_until p l).
Proof.
  induction 1 as [|c l Hc _ IH]; simpl; [constructor|].
  destruct (p c); by constructor.
Qed.

Lemma no_brackets (l : list ascii) :
  Forall (fun c => is_url_char c = true) l ->
  Str.has_char "[" l = false /\ Str.has_char "]" l = false.
Proof.
  unfold Str.has_char.
  induction 1 as [|c l Hc _ [IH1 IH2]]; cbn [existsb]; [done|].
  by rewrite url_char_not_lbracket, url_char_not_rbracket, IH1, IH2.
Qed.

Lemma split_scheme_https t :
  UrlParse.split_scheme (Str.to_list "https://" ++ t)
  = (Str.to_list "https", Str.to_list "//" ++ t).
Proof. vm_compute. reflexivity. Qed.

Lemma urlparse_https c body :
  UrlParse.netloc_delim c = false ->
  Forall (fun c => is_url_char c = true) (c :: body) ->
  UrlParse.urlparse (Str.of_list (Str.to_list "https://" ++ c :: body))
  = inr {| UrlParse.scheme := "https";
           UrlParse.netloc :=
             String c (Str.of_list
                         (UrlParse.take_until UrlParse.netloc_delim body)) |}.
Proof.
  intros Hc Hb. unfold UrlParse.urlparse, UrlParse.urlsplit.
  rewrite to_of_list.
  change (Str.lstrip_by UrlParse.c0_control_or_space
            (Str.to_list "https://" ++ c :: body))
    with (Str.to_list "https://" ++ c :: body).
  rewrite filter_safe_id
    by (apply Forall_app; split; [apply https_chars|done]).
  rewrite split_scheme_https.
  change (Str.startswith (Str.to_list "//") (Str.to_list "//" ++ c :: body))
    with true.
  cbv iota. change (drop 2 (Str.to_list "//" ++ c :: body)) with (c :: body).
  destruct (no_brackets _ (take_until_chars UrlParse.netloc_delim _ Hb))
    as [-> ->].
  simpl. by rewrite Hc.
Qed.

Lemma DetectedURL_https c body :
  UrlParse.netloc_delim c = false ->
  Forall (fun c => is_url_char c = true) (c :: body) ->
  DetectedURL (Str.of_list (Str.to_list "https://" ++ c :: body)).
Proof.
  intros Hc Hb. eexists. split; [by apply urlparse_https|]. simpl.
  split; [done|]. by left.
Qed.

(** ** No candidate makes [urlparse] raise *)

Lemma lstrip_by_chars (P : ascii -> Prop) p (l : list ascii) :
  Forall P l -> Forall P (Str.lstrip_by p l).
Proof.
  induction 1 as [|c l Hc Hl IH]; simpl; [constructor|].
  destruct (p c); [done|by constructor].
Qed.

Lemma split_scheme_chars (P : ascii -> Prop) (l : list ascii) :
  Forall P l -> Forall P (UrlParse.split_scheme l).2.
Proof.
  intros H. unfold UrlParse.split_scheme.
  destruct (Str.find ":" l) as [[|i]|]; [exact H| |exact H].
  destruct l as [|c0 l']; [exact H|].
  destruct (Chr.is_ascii_alpha c0 && _); [|exact H].
  apply Forall_cons in H as [_ H]. simpl. by apply Forall_drop.
Qed.

Lemma urlsplit_returns (url : list ascii) :
  Forall (fun c => is_url_char c = true) url ->
  exists p, UrlParse.urlsplit url = inr p.
Proof.
  intros H. unfold UrlParse.urlsplit.
  set (url2 := filter _ _).
  assert (H2 : Forall (fun c => is_url_char c = true) url2).
  { apply Forall_forall. intros c [_ Hc]%list_elem_of_filter. revert c Hc.
    apply Forall_forall. by apply lstrip_by_chars. }
  pose proof (split_scheme_chars _ _ H2) as H3.
  destruct (UrlParse.split_scheme url2) as [sch url3]. simpl in H3.
  destruct (Str.startswith (Str.to_list "//") url3); [|by eexists].
  destruct (no_brackets
              (UrlParse.take_until UrlParse.netloc_delim (drop 2 url3)))
    as [-> ->]; [|by eexists].
  apply take_until_chars. by apply Forall_drop.
Qed.

Lemma candidate_chars (text : string) (m : list ascii) :
  m ∈ raw_matches text ->
  Forall (fun c => is_url_char c = true) (Str.to_list (candidate m)).
Proof.
  intros Hm. pose proof (raw_match_chars text m Hm) as Hc.
  unfold candidate. rewrite to_of_list, strip_id by done.
  unfold add_protocol.
  repeat match goal with |- context [if ?b then _ else _] => destruct b end;
    try done; (apply Forall_app; split; [apply https_chars|done]).
Qed.

(** The handler around [urlparse] in [extract_urls] is never entered. *)
Lemma candidate_parses (text : string) (m : list ascii) :
  m ∈ raw_matches text -> exists p, UrlParse.urlparse (candidate m) = inr p.
Proof.
  intros Hm. unfold UrlParse.urlparse.
  destruct (urlsplit_returns _ (candidate_chars text m Hm)) as ([sch nl] & ->).
  by eexists.
Qed.

Lemma of_list_app (a b : list ascii) :
  Str.of_list (a ++ b) = Str.of_list a +:+ Str.of_list b.
Proof.
  rewrite <- (of_to_list (Str.of_list a +:+ Str.of_list b)).
  by rewrite to_list_app, !to_of_list.
Qed.

Ltac solve_elem :=
  vm_compute;
  repeat first [apply list_elem_of_here | apply list_elem_of_further].

Ltac solve_not_elem :=
  let H := fresh in
  intros H; vm_compute in H;
  repeat (apply elem_of_cons in H as [H|H]; [discriminate H|]);
  by apply elem_of_nil in H.

End DetectorFacts.

(** * Statements about the URL detector *)

Module DetectorClaims.

Import URLDetector Spec DetectorFacts.

(** C2.  Every string returned by [extract_urls] parses as a URI with a
    non-empty scheme and either a non-empty network authority or the scheme
    [file]; a normalized candidate that fails this validation, or fails to
    parse, is not returned. *)
Theorem extract_urls_validated (text : string) :
  (forall u, u ∈ extract_urls text -> DetectedURL u)
  /\ (forall m, m ∈ raw_matches text -> ~ DetectedURL (candidate m) ->
        candidate m ∉ extract_urls text).
Proof.
  split.
  - intros u Hu. apply elem_of_extract_urls in Hu as (m & _ & _ & Hv). done.
  - intros m _ Hbad Hin.
    apply elem_of_extract_urls in Hin as (m' & _ & _ & Hv). done.
Qed.

Lemma extract_urls_validated_witness :
  DetectedURL "https://a.io/x"
  /\ "data:text/plain,hello" ∉ extract_urls "see https://a.io/x data:text/plain,hello".
Proof.
  destruct (extract_urls_validated "see https://a.io/x data:text/plain,hello")
    as [Hin Hout].
  split.
  - apply Hin. solve_elem.
  - apply (Hout (Str.to_list "data:text/plain,hello")).
    + solve_elem.
    + intros Hv. apply keeps_DetectedURL in Hv. vm_compute in Hv.
      discriminate Hv.
Defined.

(** C5, as amended.  In a text whose characters all have code points below
    256, which is what a [string] holds, an [https://] address with a
    non-empty host, made of characters of the class [C], that stands between
    delimiters (the start of the text or a character outside [C] before it,
    the end of the text or a character outside [C] after it) is returned
    unchanged.  The bound on the code points is part of the statement:
    beyond it [urlparse] refuses some hosts, and the address is dropped. *)
Theorem extract_urls_keeps_delimited_https (pre body post : string) :
  opens_host body -> url_chars body ->
  ends_delimited pre -> starts_delimited post ->
  "https://" +:+ body
  ∈ extract_urls (pre +:+ ("https://" +:+ body) +:+ post).
Proof.
  intros Hhost Hchars Hpre Hpost.
  destruct body as [|c body]; [done|]. simpl in Hhost.
  unfold url_chars in Hchars. simpl in Hchars.
  set (U := Str.to_list "https://" ++ c :: Str.to_list body).
  assert (EU : Str.of_list U = "https://" +:+ String c body).
  { unfold U. rewrite of_list_app. f_equal.
    apply (of_to_list (String c body)). }
  rewrite <- EU. apply elem_of_extract_urls. exists U. split; [|split].
  - apply raw_match_web; [apply web_prefix_https|done..].
  - symmetry. by apply candidate_https.
  - by apply DetectedURL_https.
Qed.

Lemma extract_urls_keeps_delimited_https_witness :
  "https://example.com/a" ∈ extract_urls "See https://example.com/a now".
Proof.
  apply (extract_urls_keeps_delimited_https "See " "example.com/a" " now").
  - reflexivity.
  - unfold url_chars. repeat constructor.
  - reflexivity.
  - reflexivity.
Defined.

(** C5, as stated, fails: the address [https://example.com/a] followed by a
    full stop is returned with the full stop attached, and not as it
    stands; glued to text that the pattern matches first, it is returned as
    part of a longer address. *)
Lemma https_address_before_full_stop :
  DetectedURL "https://example.com/a"
  /\ (extract_urls ("See " +:+ "https://example.com/a" +:+ ".")
      = ["https://example.com/a."])
  /\ ("https://example.com/a"
      ∉ extract_urls ("See " +:+ "https://example.com/a" +:+ "."))
  /\ (extract_urls ("at x.io/" +:+ "https://example.com/a" +:+ " now")
      = ["https://x.io/https://example.com/a"]).
Proof.
  split; [|split; [|split]].
  - apply keeps_DetectedURL. vm_compute. reflexivity.
  - vm_compute. reflexivity.
  - solve_not_elem.
  - vm_compute. reflexivity.
Qed.

(** C6, as amended.  A raw match without a scheme prefix gets [https://]
    prepended when it starts with [www.] or when it holds a dot and does not
    start with one; and where [www.example.com] stands in a text between
    delimiters, [https://www.example.com] is returned. *)
Theorem extract_urls_adds_https :
  (forall text m, m ∈ raw_matches text ->
     has_scheme_prefix m = false ->
     Str.startswith (Str.to_list "www.") m = true
     \/ (Str.has_char "." m = true
         /\ Str.startswith (Str.to_list ".") m = false) ->
     candidate m = "https://" +:+ Str.of_list m)
  /\ (forall pre post, ends_delimited pre -> starts_delimited post ->
        "https://www.example.com"
        ∈ extract_urls (pre +:+ "www.example.com" +:+ post)).
Proof.
  split.
  - intros text m Hm Hs Hcond. unfold candidate, add_protocol.
    rewrite strip_id by by eapply raw_match_chars.
    assert (E : Str.of_list (Str.to_list "https://" ++ m)
                = "https://" +:+ Str.of_list m)
      by (by rewrite of_list_app, (of_to_list "https://")).
    rewrite Hs. destruct Hcond as [Hw|[Hd Hn]].
    + rewrite Hw. exact E.
    + rewrite Hd, Hn.
      destruct (Str.startswith (Str.to_list "www.") m); exact E.
  - intros pre post Hpre Hpost. apply elem_of_extract_urls.
    exists (Str.to_list "www." ++ Str.to_list "example.com"). split; [|split].
    + apply (raw_match_web pre post (Str.to_list "www.") "e"
               (Str.to_list "xample.com"));
        [apply web_prefix_www|repeat constructor|done..].
    + vm_compute. reflexivity.
    + apply keeps_DetectedURL. vm_compute. reflexivity.
Qed.

Lemma extract_urls_adds_https_witness :
  candidate (Str.to_list "example.org/x") = "https://example.org/x"
  /\ "https://www.example.com" ∈ extract_urls "Visit www.example.com today".
Proof.
  destruct extract_urls_adds_https as [Hnorm Hwww]. split.
  - apply (Hnorm "go to example.org/x").
    + solve_elem.
    + reflexivity.
    + right. split; reflexivity.
  - apply (Hwww "Visit " " today"); reflexivity.
Defined.

(** C6, as stated, fails: the text [http://www.example.com] contains
    [www.example.com], and [https://www.example.com] is not returned. *)
Lemma www_inside_http_address :
  extract_urls "http://www.example.com" = ["http://www.example.com"]
  /\ "https://www.example.com" ∉ extract_urls "http://www.example.com".
Proof.
  split.
  - vm_compute. reflexivity.
  - solve_not_elem.
Qed.

(** C7.  Each validated normalized candidate occurs exactly once in the
    result, and nothing else occurs in it: duplicates are removed by
    equality of strings, so that candidates whose normalized texts differ
    each keep their own entry. *)
Theorem extract_urls_exact_dedup (text : string) :
  NoDup (extract_urls text)
  /\ (forall m, m ∈ raw_matches text -> DetectedURL (candidate m) ->
        occurrences (candidate m) (extract_urls text) = 1%nat)
  /\ (forall u, u ∈ extract_urls text ->
        exists m, m ∈ raw_matches text /\ u = candidate m).
Proof.
  split; [apply NoDup_extract_urls|split].
  - intros m Hm Hv. apply occurrences_NoDup; [apply NoDup_extract_urls|].
    apply elem_of_extract_urls. by exists m.
  - intros u Hu. apply elem_of_extract_urls in Hu as (m & Hm & -> & _).
    by exists m.
Qed.

Lemma extract_urls_exact_dedup_witness :
  let text := "http://a.com http://a.com/ HTTP://a.com http://a.com"%string in
  occurrences "http://a.com" (extract_urls text) = 1%nat
  /\ occurrences "http://a.com/" (extract_urls text) = 1%nat
  /\ occurrences "HTTP://a.com" (extract_urls text) = 1%nat.
Proof.
  intros text. destruct (extract_urls_exact_dedup text) as (_ & Hocc & _).
  split; [|split].
  - apply (Hocc (Str.to_list "http://a.com")); [solve_elem|].
    apply keeps_DetectedURL. vm_compute. reflexivity.
  - apply (Hocc (Str.to_list "http://a.com/")); [solve_elem|].
    apply keeps_DetectedURL. vm_compute. reflexivity.
  - apply (Hocc (Str.to_list "HTTP://a.com")); [solve_elem|].
    apply keeps_DetectedURL. vm_compute. reflexivity.
Defined.

(** C10.  On [data:text/plain,hello], [contains_urls] answers true while
    [extract_urls] returns the empty list; and no returned string with the
    scheme [data] lacks a network authority. *)
Theorem data_uri_disagreement :
  contains_urls "data:text/plain,hello" = true
  /\ extract_urls "data:text/plain,hello" = []
  /\ (forall text u p, u ∈ extract_urls text ->
        UrlParse.urlparse u = inr p -> UrlParse.scheme p = "data" ->
        UrlParse.netloc p <> EmptyString).
Proof.
  split; [vm_compute; reflexivity|]. split; [vm_compute; reflexivity|].
  intros text u p Hu Hp Hs.
  apply elem_of_extract_urls in Hu as (_ & _ & _ & p' & Hp' & _ & Hn).
  rewrite Hp in Hp'. injection Hp' as <-.
  destruct Hn as [Hn|Hf]; [done|]. rewrite Hs in Hf. discriminate Hf.
Qed.

Lemma data_uri_disagreement_witness :
  UrlParse.netloc
    {| UrlParse.scheme := "data"; UrlParse.netloc := "h" |} <> EmptyString.
Proof.
  destruct data_uri_disagreement as (_ & _ & H).
  apply (H "see data://h/x" "data://h/x").
  - solve_elem.
  - vm_compute. reflexivity.
  - reflexivity.
Defined.

End DetectorClaims.

(** * The content assembler *)

Module HandlerFacts.

Import Run MultiModalContentHandler.

Lemma process_urls_snoc (acc : list ContentPart) (urls : list string) :
  foldl (fun url_parts url => url_parts ++ [LinkReference url]) acc urls
  = acc ++ map LinkReference urls.
Proof.
  revert acc. induction urls as [|u urls IH]; intros acc; simpl.
  - by rewrite app_nil_r.
  - by rewrite IH, <- app_assoc.
Qed.

Lemma process_urls_map (urls : list string) :
  _process_urls urls = map LinkReference urls.
Proof. unfold _process_urls. by rewrite process_urls_snoc. Qed.

Section Handler.
Context {W : Type} (svc : Services W) (base : string).

(** The three ways [_create_file_part] can go; it never raises. *)
Lemma create_file_part_cases (task_id file_name : string) (w : W) :
  let url := base +:+ "/files/" +:+ task_id in
  let mime := guess_type svc file_name in
  match http_get svc url w with
  | (inl e, w1) =>
      exists msg,
        _create_file_part svc base task_id file_name w
        = (inr None, w1, [EvDownload url (inl e); EvLogError msg])
  | (inr content, w1) =>
      match files_upload svc content file_name mime w1 with
      | (inl e, w2) =>
          exists msg,
            _create_file_part svc base task_id file_name w
            = (inr None, w2,
               [EvDownload url (inr content);
                EvUpload file_name mime (inl e); EvLogError msg])
      | (inr f, w2) =>
          _create_file_part svc base task_id file_name w
          = (inr (Some f), w2,
             [EvDownload url (inr content); EvUpload file_name mime (inr f)])
      end
  end.
Proof.
  intros url mime. unfold _create_file_part, try_except, bind, call.
  fold url. fold mime.
  destruct (http_get svc url w) as [[e|content] w1].
  - destruct e; simpl; eauto.
  - destruct (files_upload svc content file_name mime w1) as [[e|f] w2].
    + destruct e; simpl; eauto.
    + done.
Qed.

(** What the assembly returns, by what [_create_file_part] did. *)
Lemma build_cases (text : string) (task_id file_name : option string)
    (urls : list string) (w : W) :
  let build :=
    build_multimodal_content svc base text task_id file_name (Some urls) w in
  let links := map LinkReference urls in
  match task_id, file_name with
  | Some tid, Some fname =>
      if Str.truthy tid && Str.truthy fname then
        match _create_file_part svc base tid fname w with
        | (inr (Some f), w1, t1) =>
            build = (inr ([Text text; RemoteFile f] ++ links), w1, t1)
        | (inr None, w1, t1) => build = (inr (Text text :: links), w1, t1)
        | (inl e, w1, t1) => build = (inl e, w1, t1)
        end
      else build = (inr (Text text :: links), w, [])
  | _, _ => build = (inr (Text text :: links), w, [])
  end.
Proof.
  intros build links. subst build links.
  unfold build_multimodal_content, bind, ret.
  destruct task_id as [tid|], file_name as [fname|];
    try (destruct urls; simpl; by rewrite ?process_urls_map).
  destruct (Str.truthy tid && Str.truthy fname);
    [|destruct urls; simpl; by rewrite ?process_urls_map].
  destruct (_create_file_part svc base tid fname w) as [[[e|[f|]] w1] t1];
    [done|..];
    destruct urls; simpl; by rewrite ?process_urls_map, ?app_nil_r.
Qed.

End Handler.

End HandlerFacts.

Module HandlerClaims.

Import Run MultiModalContentHandler HandlerFacts.

(** C1.  With a file reference whose download and upload succeed, the
    assembly returns the [Text] part with the input text, then the
    [RemoteFile] part, then one [LinkReference] per URL in the order of the
    list: [1 + 1 + N] parts.  Without a file reference it returns the [Text]
    part followed by the [N] link parts.  In every case it returns a
    sequence that starts with the [Text] part. *)
Theorem build_multimodal_content_order {W : Type} (svc : Services W)
    (base text : string) (task_id file_name : option string)
    (urls : list string) (w : W) :
  (forall tid fname content w1 f w2,
     task_id = Some tid -> file_name = Some fname ->
     Str.truthy tid = true -> Str.truthy fname = true ->
     http_get svc (base +:+ "/files/" +:+ tid) w = (inr content, w1) ->
     files_upload svc content fname (guess_type svc fname) w1 = (inr f, w2) ->
     exists tr,
       build_multimodal_content svc base text task_id file_name (Some urls) w
       = (inr ([Text text; RemoteFile f] ++ map LinkReference urls), w2, tr)
       /\ length ([Text text; RemoteFile f] ++ map LinkReference urls)
          = (1 + 1 + length urls)%nat)
  /\ (~ has_file_reference task_id file_name ->
      build_multimodal_content svc base text task_id file_name (Some urls) w
      = (inr (Text text :: map LinkReference urls), w, []))
  /\ (exists rest w' tr,
        build_multimodal_content svc base text task_id file_name (Some urls) w
        = (inr (Text text :: rest), w', tr)).
Proof.
  pose proof (build_cases svc base text task_id file_name urls w) as Hb.
  simpl in Hb. split; [|split].
  - intros tid fname content w1 f w2 -> -> Ht Hf Hget Hup.
    pose proof (create_file_part_cases svc base tid fname w) as Hc.
    simpl in Hc. rewrite Hget, Hup in Hc.
    rewrite Ht, Hf, Hc in Hb. simpl in Hb. eexists. split; [exact Hb|].
    simpl. by rewrite length_map.
  - intros Hno. destruct task_id as [tid|], file_name as [fname|]; try done.
    simpl in Hno.
    destruct (Str.truthy tid), (Str.truthy fname); try done.
    by destruct Hno.
  - destruct task_id as [tid|], file_name as [fname|]; try by eauto.
    destruct (Str.truthy tid && Str.truthy fname); [|by eauto].
    pose proof (create_file_part_cases svc base tid fname w) as Hc.
    simpl in Hc.
    destruct (http_get svc (base +:+ "/files/" +:+ tid) w)
      as [[e|content] w1].
    + destruct Hc as (msg & Hc). rewrite Hc in Hb. by eauto.
    + destruct (files_upload svc content fname (guess_type svc fname) w1)
        as [[e|f] w2].
      * destruct Hc as (msg & Hc). rewrite Hc in Hb. by eauto.
      * rewrite Hc in Hb. simpl in Hb. by eauto.
Qed.

Lemma build_multimodal_content_order_witness :
  exists tr,
    build_multimodal_content (Worlds.scripted Worlds.all_well)
      "https://files.example" "What is this?" (Some "t1") (Some "pic.png")
      (Some ["https://a.io/x"; "https://b.io/y"]) 0%nat
    = (inr [Text "What is this?"; RemoteFile Worlds.a_file;
            LinkReference "https://a.io/x"; LinkReference "https://b.io/y"],
       0%nat, tr).
Proof.
  destruct (build_multimodal_content_order (Worlds.scripted Worlds.all_well)
              "https://files.example" "What is this?" (Some "t1")
              (Some "pic.png") ["https://a.io/x"; "https://b.io/y"] 0%nat)
    as (Hfile & _ & _).
  destruct (Hfile "t1" "pic.png" [] 0%nat Worlds.a_file 0%nat
              eq_refl eq_refl eq_refl eq_refl eq_refl eq_refl)
    as (tr & E & _).
  exists tr. exact E.
Defined.

(** C4.  When the download raises, or the upload raises after a download
    that returned, the assembly still returns: its result is the [Text] part
    followed by the link parts, without a file part, and the failure is
    logged once. *)
Theorem build_multimodal_content_absorbs_failure {W : Type}
    (svc : Services W) (base text tid fname : string) (urls : list string)
    (w : W) :
  Str.truthy tid = true -> Str.truthy fname = true ->
  (exists e w1, http_get svc (base +:+ "/files/" +:+ tid) w = (inl e, w1))
  \/ (exists content w1 e w2,
        http_get svc (base +:+ "/files/" +:+ tid) w = (inr content, w1)
        /\ files_upload svc content fname (guess_type svc fname) w1
           = (inl e, w2)) ->
  exists w' tr,
    build_multimodal_content svc base text (Some tid) (Some fname)
      (Some urls) w
    = (inr (Text text :: map LinkReference urls), w', tr)
    /\ length (Trace.error_logs tr) = 1%nat.
Proof.
  intros Ht Hf Hfail.
  pose proof (build_cases svc base text (Some tid) (Some fname) urls w) as Hb.
  pose proof (create_file_part_cases svc base tid fname w) as Hc.
  simpl in Hb, Hc. rewrite Ht, Hf in Hb. simpl in Hb.
  destruct Hfail as [(e & w1 & Hget)|(content & w1 & e & w2 & Hget & Hup)].
  - rewrite Hget in Hc. destruct Hc as (msg & Hc). rewrite Hc in Hb.
    eexists _, _. split; [exact Hb|reflexivity].
  - rewrite Hget, Hup in Hc. destruct Hc as (msg & Hc). rewrite Hc in Hb.
    eexists _, _. split; [exact Hb|reflexivity].
Qed.

Lemma build_multimodal_content_absorbs_failure_witness :
  exists w' tr,
    build_multimodal_content
      (Worlds.scripted
         {| Worlds.download_works := false; Worlds.upload_works := true;
            Worlds.model_failures := 0; Worlds.listing_works := true;
            Worlds.deletion_works := true |})
      "https://files.example" "What is this?" (Some "t1") (Some "pic.png")
      (Some ["https://a.io/x"]) 0%nat
    = (inr [Text "What is this?"; LinkReference "https://a.io/x"], w', tr)
    /\ length (Trace.error_logs tr) = 1%nat.
Proof.
  apply (build_multimodal_content_absorbs_failure
           (Worlds.scripted
              {| Worlds.download_works := false; Worlds.upload_works := true;
                 Worlds.model_failures := 0; Worlds.listing_works := true;
                 Worlds.deletion_works := true |})
           "https://files.example" "What is this?" "t1" "pic.png"
           ["https://a.io/x"] 0%nat eq_refl eq_refl).
  left. eexists _, _. reflexivity.
Defined.

End HandlerClaims.

(** * The pipeline *)

Module AgentFacts.

Import Run Agent Trace HandlerFacts.

Lemma downloads_app a b : downloads (a ++ b) = downloads a ++ downloads b.
Proof. apply omap_app. Qed.
Lemma uploads_app a b : uploads (a ++ b) = uploads a ++ uploads b.
Proof. apply omap_app. Qed.
Lemma generations_app a b :
  generations (a ++ b) = generations a ++ generations b.
Proof. apply omap_app. Qed.
Lemma listings_app a b : listings (a ++ b) = listings a ++ listings b.
Proof. apply omap_app. Qed.
Lemma deletions_app a b : deletions (a ++ b) = deletions a ++ deletions b.
Proof. apply omap_app. Qed.
Lemma error_logs_app a b : error_logs (a ++ b) = error_logs a ++ error_logs b.
Proof. apply omap_app. Qed.

Create Rewrite HintDb trace.
#[local] Hint Rewrite downloads_app uploads_app generations_app listings_app
  deletions_app error_logs_app : trace.

Ltac split_facts := repeat match goal with |- _ /\ _ => split end.

Ltac close_facts :=
  repeat split;
  try solve [ reflexivity
            | simpl; tauto
            | simpl; lia
            | vm_compute; reflexivity
            | vm_compute; lia
            | simpl; discriminate
            | simpl; intros [? ?]; congruence
            | simpl; intros; lia
            | simpl; intros ? ? ?%elem_of_nil; done
            | simpl; intros ? [=]; done
            | simpl; intros [? _]%Forall_cons; done ].

Section Agent.
Context {W : Type} (svc : Services W) (config : Config).

(** The first node never raises and only talks to the file collaborators. *)
Lemma analyze_cases (st : AgentState) (w : W) :
  exists u w1 t1,
    _analyze_input svc config st w = (inr u, w1, t1)
    /\ set_final_answer u = None
    /\ generations t1 = [] /\ listings t1 = [] /\ deletions t1 = []
    /\ (length (downloads t1) <= 1)%nat
    /\ length (uploads t1) = length (filter returned (downloads t1))
    /\ (has_file_reference (task_id st) (file_name st) ->
        length (downloads t1) = 1%nat)
    /\ (~ has_file_reference (task_id st) (file_name st) ->
        downloads t1 = []).
Proof.
  unfold _analyze_input, bind.
  pose proof (build_cases svc (handler_base_url config) (question_text st)
                (task_id st) (file_name st)
                (URLDetector.extract_urls (question_text st)) w) as Hb.
  simpl in Hb.
  destruct (task_id st) as [tid|], (file_name st) as [fname|];
    try (rewrite Hb; eexists _, _, _; by close_facts).
  unfold has_file_reference.
  destruct (Str.truthy tid), (Str.truthy fname); simpl in Hb;
    try (rewrite Hb; eexists _, _, _; by close_facts).
  pose proof (create_file_part_cases svc (handler_base_url config) tid fname w)
    as Hc.
  simpl in Hc.
  destruct (http_get svc (handler_base_url config +:+ "/files/" +:+ tid) w)
    as [[e|content] w1].
  - destruct Hc as (msg & Hc). rewrite Hc in Hb. rewrite Hb.
    eexists _, _, _. by close_facts.
  - destruct (files_upload svc content fname (guess_type svc fname) w1)
      as [[e|f] w2].
    + destruct Hc as (msg & Hc). rewrite Hc in Hb. rewrite Hb.
      eexists _, _, _. by close_facts.
    + rewrite Hc in Hb. rewrite Hb.
      eexists _, _, _. by close_facts.
Qed.

(** The retried call of the model: up to three attempts, one after each
    failure, and [RetryError] after the third. *)
Lemma generate_cases (contents : list ContentPart) (w : W) :
  exists r w1 t,
    _generate_content_with_retry svc config contents w = (r, w1, t)
    /\ downloads t = [] /\ uploads t = [] /\ listings t = []
    /\ deletions t = []
    /\ retried 2 (generations t)
    /\ match r with
       | inr resp => last (generations t) = Some (inr resp)
       | inl e =>
           exists e1 e2 e3,
             generations t = [inl e1; inl e2; inl e3] /\ e = RetryError e3
       end.
Proof.
  unfold _generate_content_with_retry, Tenacity.retry. simpl.
  unfold try_except, bind, call, emit, raise.
  set (gen := generate_content svc (model_name config) contents).
  destruct (gen w) as [[e1|r1] w1]; [|eexists _, _, _; by close_facts].
  destruct (gen w1) as [[e2|r2] w2]; [|eexists _, _, _; by close_facts].
  destruct (gen w2) as [[e3|r3] w3]; [|eexists _, _, _; by close_facts].
  eexists _, _, _. close_facts. by eexists _, _, _.
Qed.

Lemma call_agent_cases (st : AgentState) (w : W) :
  exists r w1 t,
    _call_agent svc config st w = (r, w1, t)
    /\ downloads t = [] /\ uploads t = [] /\ listings t = []
    /\ deletions t = []
    /\ retried 2 (generations t)
    /\ match r with
       | inr u =>
           exists resp,
             last (generations t) = Some (inr resp)
             /\ set_final_answer u = Some (response_text resp)
       | inl e =>
           exists e1 e2 e3,
             generations t = [inl e1; inl e2; inl e3] /\ e = RetryError e3
       end.
Proof.
  unfold _call_agent, bind.
  destruct (generate_cases (multimodal_content_parts st) w)
    as (r & w1 & t & E & Hd & Hu & Hl & Hx & Hr & Hres).
  rewrite E. destruct r as [e|resp].
  - eexists _, _, _. by close_facts.
  - eexists _, _, _. unfold ret. rewrite app_nil_r. close_facts.
    by exists resp.
Qed.

(** The loop deletes every listed file once, in order, and never raises. *)
Lemma delete_loop (files : list File) (w : W) :
  exists w1 t,
    for_each files (delete_logged svc) w = (inr tt, w1, t)
    /\ downloads t = [] /\ uploads t = [] /\ generations t = []
    /\ listings t = []
    /\ map fst (deletions t) = map name files
    /\ (forall f e, (f, inl e) ∈ deletions t ->
        ("Failed to delete file " +:+ f +:+ ": " +:+ exn_str e)%string
        ∈ error_logs t).
Proof.
  revert w. induction files as [|file files IH]; intros w; simpl.
  - eexists _, _. unfold ret. by close_facts.
  - unfold bind at 1. unfold delete_logged at 1, try_except, call, emit.
    destruct (files_delete svc (name file) w) as [[e|[]] w1];
      destruct (IH w1) as (w2 & t & -> & Hd & Hu & Hg & Hl & Hn & Hlog);
      eexists _, _; (split; [reflexivity|]);
      autorewrite with trace; rewrite Hd, Hu, Hg, Hl; simpl; rewrite Hn;
      close_facts.
    + intros f e' [[= -> ->]|Hin]%elem_of_cons.
      * apply list_elem_of_here.
      * apply list_elem_of_further. by apply Hlog.
    + intros f e' [[=]|Hin]%elem_of_cons. by apply Hlog.
Qed.

Lemma cleanup_cases (st : AgentState) (w : W) :
  exists r w1 t,
    _cleanup_files svc st w = (r, w1, t)
    /\ downloads t = [] /\ uploads t = [] /\ generations t = []
    /\ listings t <> []
    /\ match head (listings t) with
       | Some (inr files) => map fst (deletions t) = map name files
       | _ => deletions t = []
       end
    /\ (forall f e, (f, inl e) ∈ deletions t ->
        ("Failed to delete file " +:+ f +:+ ": " +:+ exn_str e)%string
        ∈ error_logs t)
    /\ (Forall returned (listings t) -> r = inr no_update)
    /\ (forall u, r = inr u -> u = no_update).
Proof.
  unfold _cleanup_files.
  change (fun file : File =>
            try_except
              (call (EvDelete (name file)) (files_delete svc (name file)))
              (fun e =>
                 emit (EvLogError
                         ("Failed to delete file " +:+ name file +:+ ": "
                          +:+ exn_str e))))
    with (delete_logged svc).
  unfold bind at 1. unfold call at 1.
  destruct (files_list svc w) as [[e|files] w1].
  - eexists _, _, _. by close_facts.
  - unfold bind at 1.
    destruct (delete_loop files w1)
      as (w2 & t & -> & Hd & Hu & Hg & Hl & Hn & Hlog).
    unfold bind, call, emit, ret.
    destruct (files_list svc w2) as [[e|remaining] w3];
      eexists _, _, _; (split; [reflexivity|]);
      autorewrite with trace; rewrite Hd, Hu, Hg, Hl; simpl;
      rewrite ?app_nil_r; close_facts;
      try (intros f e' Hin; apply elem_of_app; left; by apply Hlog);
      try (by intros [_ [? _]%Forall_cons]%Forall_cons);
      try (by intros u [= <-]).
Qed.

Lemma invoke_enough (st : AgentState) (limit : nat) (w : W) :
  (3 <= limit)%nat ->
  LangGraph.invoke merge (_build_graph svc config) st limit w
  = pipeline svc config st w.
Proof.
  intros H. destruct limit as [|[|[|limit]]]; try lia.
  unfold LangGraph.invoke, pipeline. simpl. unfold bind.
  destruct (_analyze_input svc config st w) as [[[e|u1] w1] t1]; [done|].
  destruct (_call_agent svc config (merge st u1) w1) as [[[e|u2] w2] t2];
    [done|].
  destruct (_cleanup_files svc (merge (merge st u1) u2) w2)
    as [[[e|u3] w3] t3]; [done|].
  destruct limit; done.
Qed.

Lemma process_question_of_invoke (q : QuestionData) (w : W) :
  match LangGraph.invoke merge (_build_graph svc config) (initial_state q)
          (recursion_limit config) w with
  | (inr st', w1, t1) =>
      process_question svc config q w
      = (inr (py_str (final_answer st')), w1, t1)
  | (inl e, w1, t1) =>
      process_question svc config q w
      = (inr ("Error: " +:+ exn_str e), w1,
         t1 ++ [EvLogError ("Error processing question: " +:+ exn_str e)])
  end.
Proof.
  unfold process_question, try_except, bind, emit, ret.
  destruct (LangGraph.invoke merge (_build_graph svc config) (initial_state q)
              (recursion_limit config) w) as [[[e|st'] w1] t1]; simpl.
  - done.
  - by rewrite app_nil_r.
Qed.

Lemma pipeline_facts (st : AgentState) (limit : nat) (w : W) :
  exists r w1 t,
    pipeline svc config st w = (r, w1, t)
    /\ run_facts (has_file_reference (task_id st) (file_name st)) limit r t.
Proof.
  unfold pipeline, bind at 1.
  destruct (analyze_cases st w)
    as (u1 & w1 & t1 & -> & Hfa & Hg1 & Hl1 & Hx1 & Hd1 & Hu1 & Hy & Hn).
  unfold bind at 1.
  destruct (call_agent_cases (merge st u1) w1)
    as (r2 & w2 & t2 & -> & Hd2 & Hu2 & Hl2 & Hx2 & Hr2 & Hres).
  destruct r2 as [e|u2].
  - destruct Hres as (e1 & e2 & e3 & Hgen & ->).
    eexists _, _, _. split; [reflexivity|]. unfold run_facts.
    autorewrite with trace.
    rewrite Hg1, Hl1, Hx1, Hd2, Hu2, Hl2, Hx2, Hgen, !app_nil_r. simpl.
    repeat split; try solve [auto | by close_facts].
    all: try (intros; naive_solver).
  - destruct Hres as (resp & Hlast & Hset).
    unfold bind at 1.
    destruct (cleanup_cases (merge (merge st u1) u2) w2)
      as (r3 & w3 & t3 & -> & Hd3 & Hu3 & Hg3 & Hl3 & Hdel & Hlog & Hok & Hno).
    assert (Hans : final_answer (merge (merge (merge st u1) u2) no_update)
                   = response_text resp).
    { simpl. by rewrite Hset. }
    destruct r3 as [e|u3]; unfold ret;
      eexists _, _, _; (split; [reflexivity|]); unfold run_facts;
      autorewrite with trace;
      rewrite Hg1, Hl1, Hx1, Hd2, Hu2, Hl2, Hx2, Hd3, Hu3, Hg3, !app_nil_r;
      simpl.
    all: split_facts; try solve [auto | by close_facts].
    all: try (intros e1 e2 e3 Hgen; rewrite Hgen in Hlast; discriminate Hlast).
    all: try (intros f e' Hin; rewrite !elem_of_app; right; right;
              by apply Hlog).
    all: try (intros resp' _ Hlast'; rewrite Hlast in Hlast';
              injection Hlast' as <-; split; [done|]).
    all: try (intros Hall; specialize (Hok Hall); discriminate Hok).
    all: try (intros st' [= <-]; rewrite (Hno u3 eq_refl); by exists resp).
    all: try (intros _; rewrite (Hno u3 eq_refl); eexists; split; [done|];
              congruence).
Qed.

Lemma invoke_facts (st : AgentState) (limit : nat) (w : W) :
  exists r w1 t,
    LangGraph.invoke merge (_build_graph svc config) st limit w = (r, w1, t)
    /\ run_facts (has_file_reference (task_id st) (file_name st)) limit r t.
Proof.
  destruct (decide (3 <= limit)%nat) as [Hle|Hlt].
  { rewrite invoke_enough by done. apply pipeline_facts. }
  unfold LangGraph.invoke.
  destruct limit as [|[|[|limit]]]; [| | |lia]; simpl.
  - eexists _, _, _. split; [reflexivity|]. unfold run_facts. split_facts;
      try solve [auto | by close_facts]; intros; lia.
  - unfold bind at 1.
    destruct (analyze_cases st w)
      as (u1 & w1 & t1 & -> & Hfa & Hg1 & Hl1 & Hx1 & Hd1 & Hu1 & Hy & Hn).
    unfold raise. eexists _, _, _. split; [reflexivity|]. unfold run_facts.
    autorewrite with trace. rewrite Hg1, Hl1, Hx1, !app_nil_r. simpl.
    split_facts; try solve [auto | by close_facts]; intros; lia.
  - unfold bind at 1.
    destruct (analyze_cases st w)
      as (u1 & w1 & t1 & -> & Hfa & Hg1 & Hl1 & Hx1 & Hd1 & Hu1 & Hy & Hn).
    unfold bind at 1.
    destruct (call_agent_cases (merge st u1) w1)
      as (r2 & w2 & t2 & -> & Hd2 & Hu2 & Hl2 & Hx2 & Hr2 & Hres).
    destruct r2 as [e|u2].
    + destruct Hres as (e1 & e2 & e3 & Hgen & ->).
      eexists _, _, _. split; [reflexivity|]. unfold run_facts.
      autorewrite with trace.
      rewrite Hg1, Hl1, Hx1, Hd2, Hu2, Hl2, Hx2, Hgen, !app_nil_r. simpl.
      split_facts; try solve [auto | by close_facts].
      all: try (intros; naive_solver).
    + destruct Hres as (resp & Hlast & Hset).
      unfold raise. eexists _, _, _. split; [reflexivity|]. unfold run_facts.
      autorewrite with trace.
      rewrite Hg1, Hl1, Hx1, Hd2, Hu2, Hl2, Hx2, !app_nil_r. simpl.
      split_facts; try solve [auto | by close_facts].
      all: try (intros e1 e2 e3 Hgen; rewrite Hgen in Hlast;
                discriminate Hlast).
Qed.

(** [process_question] never raises; its trace is the trace of the graph
    run, with one more log entry when the run raised. *)
Lemma process_question_facts (q : QuestionData) (w : W) :
  exists s w1 tr r t,
    process_question svc config q w = (inr s, w1, tr)
    /\ LangGraph.invoke merge (_build_graph svc config) (initial_state q)
         (recursion_limit config) w = (r, w1, t)
    /\ run_facts (has_file_reference (q_task_id q) (q_file_name q))
         (recursion_limit config) r t
    /\ downloads tr = downloads t /\ uploads tr = uploads t
    /\ generations tr = generations t /\ listings tr = listings t
    /\ deletions tr = deletions t
    /\ (forall m, m ∈ error_logs t -> m ∈ error_logs tr)
    /\ match r with
       | inr st' => s = py_str (final_answer st')
       | inl e => s = ("Error: " +:+ exn_str e)%string
       end.
Proof.
  pose proof (process_question_of_invoke q w) as Hp.
  destruct (invoke_facts (initial_state q) (recursion_limit config) w)
    as (r & w1 & t & E & Hfacts).
  rewrite E in Hp. destruct r as [e|st'].
  - eexists _, _, _, _, _. split; [exact Hp|]. split; [exact E|].
    split; [exact Hfacts|]. autorewrite with trace. simpl.
    rewrite !app_nil_r. split_facts; try done.
    intros m Hm. apply elem_of_app. by left.
  - eexists _, _, _, _, _. split; [exact Hp|]. split; [exact E|].
    split; [exact Hfacts|]. by split_facts.
Qed.

End Agent.

Lemma retried_length {A} (more : nat) (rs : list (result A)) :
  retried more rs -> (length rs <= S more)%nat.
Proof.
  revert more. induction rs as [|[e|a] rs IH]; intros more; simpl.
  - done.
  - destruct more as [|more]; [intros ->; simpl; lia|].
    intros H. apply IH in H. lia.
  - intros ->. simpl. lia.
Qed.

Lemma error_prefix (msg : string) :
  String.prefix "Error:" ("Error: " +:+ msg) = true.
Proof. reflexivity. Qed.

End AgentFacts.

Module AgentClaims.

Import Run Agent Trace AgentFacts.

(** C3.  [process_question] always returns a string and never raises: the
    answer of the graph run when the run returns, and a string that begins
    with [Error:] when the run raises, as it does when the model call fails
    on three attempts in a row; when the model answered and the listings of
    cleanup returned, the string is the model's answer text. *)
Theorem process_question_returns_string {W : Type} (svc : Services W)
    (config : Config) (q : QuestionData) (w : W) :
  exists s w1 tr,
    process_question svc config q w = (inr s, w1, tr)
    /\ match LangGraph.invoke merge (_build_graph svc config)
               (initial_state q) (recursion_limit config) w with
       | (inr st', _, _) => s = py_str (final_answer st')
       | (inl e, _, _) =>
           s = ("Error: " +:+ exn_str e)%string
           /\ String.prefix "Error:" s = true
       end
    /\ (forall e1 e2 e3,
          generations tr = [inl e1; inl e2; inl e3] ->
          String.prefix "Error:" s = true)
    /\ (forall resp,
          (3 <= recursion_limit config)%nat ->
          last (generations tr) = Some (inr resp) ->
          Forall returned (listings tr) ->
          s = py_str (response_text resp)).
Proof.
  destruct (process_question_facts svc config q w)
    as (s & w1 & tr & r & t & E & Einv & Hf & _ & _ & Hg & Hl & _ & _ & Hs).
  destruct Hf as (_ & _ & _ & _ & _ & _ & _ & Hfail & Hok & _).
  exists s, w1, tr. split; [exact E|]. rewrite Einv. rewrite Hg, Hl.
  split; [|split].
  - destruct r as [e|st']; [|done]. split; [done|]. rewrite Hs.
    apply error_prefix.
  - intros e1 e2 e3 Hgen. destruct (Hfail e1 e2 e3 Hgen) as [-> _].
    simpl in Hs. rewrite Hs. apply error_prefix.
  - intros resp Hlim Hlast Hall.
    destruct (Hok resp Hlim Hlast) as [_ Hst].
    destruct (Hst Hall) as (st' & -> & Hans). simpl in Hs.
    by rewrite Hs, Hans.
Qed.

Lemma process_question_returns_string_witness :
  exists s w1 tr,
    process_question (Worlds.scripted Worlds.model_down) Worlds.config
      Worlds.question_with_file 0%nat = (inr s, w1, tr)
    /\ String.prefix "Error:" s = true.
Proof.
  destruct (process_question_returns_string
              (Worlds.scripted Worlds.model_down) Worlds.config
              Worlds.question_with_file 0%nat)
    as (s & w1 & tr & E & _ & Hfail & _).
  exists s, w1, tr. split; [exact E|].
  apply (Hfail (OtherException "model unavailable")
               (OtherException "model unavailable")
               (OtherException "model unavailable")).
  vm_compute in E. injection E as <- <- <-. reflexivity.
Defined.

(** C8, as amended.  In the run for a question the model call is attempted at most
    three times, a new attempt following each one that raised while
    attempts remain.  The download is attempted once for a question with a
    file reference and not otherwise; the upload once after a download that
    returned and not otherwise; each listed file's deletion once.  None of
    the three is retried, and whatever they return or raise, the answer is
    the model's when the model answered and the listings returned. *)
Theorem attempts_bounded {W : Type} (svc : Services W) (config : Config)
    (q : QuestionData) (w : W) :
  exists s w1 tr,
    process_question svc config q w = (inr s, w1, tr)
    /\ (length (generations tr) <= 3)%nat
    /\ (generations tr = [] \/ retried 2 (generations tr))
    /\ ((1 <= recursion_limit config)%nat ->
        has_file_reference (q_task_id q) (q_file_name q) ->
        length (downloads tr) = 1%nat)
    /\ (~ has_file_reference (q_task_id q) (q_file_name q) ->
        downloads tr = [])
    /\ length (uploads tr) = length (filter returned (downloads tr))
    /\ (length (uploads tr) <= 1)%nat
    /\ match head (listings tr) with
       | Some (inr files) => map fst (deletions tr) = map name files
       | _ => deletions tr = []
       end
    /\ (forall resp,
          (3 <= recursion_limit config)%nat ->
          last (generations tr) = Some (inr resp) ->
          Forall returned (listings tr) ->
          s = py_str (response_text resp)).
Proof.
  destruct (process_question_facts svc config q w)
    as (s & w1 & tr & r & t & E & Einv & Hf & Hd & Hu & Hg & Hl & Hx & _ & Hs).
  destruct Hf as (Hshape & Hd1 & Hup & Hfile & Hnofile & Hdel & _ & _ & Hok & _).
  exists s, w1, tr. split; [exact E|]. rewrite Hd, Hu, Hg, Hl, Hx.
  split_facts; try done.
  - destruct Hshape as [->|Hshape]; [simpl; lia|].
    by apply retried_length in Hshape.
  - rewrite Hup. etrans; [apply length_filter|done].
  - intros resp Hlim Hlast Hall.
    destruct (Hok resp Hlim Hlast) as [_ Hst].
    destruct (Hst Hall) as (st' & -> & Hans). simpl in Hs.
    by rewrite Hs, Hans.
Qed.

Lemma attempts_bounded_witness :
  exists s w1 tr,
    process_question (Worlds.scripted Worlds.rough) Worlds.config
      Worlds.question_with_file 0%nat = (inr s, w1, tr)
    /\ length (downloads tr) = 1%nat
    /\ s = "Paris".
Proof.
  destruct (attempts_bounded (Worlds.scripted Worlds.rough) Worlds.config
              Worlds.question_with_file 0%nat)
    as (s & w1 & tr & E & _ & _ & Hfile & _ & _ & _ & _ & Hans).
  exists s, w1, tr. split; [exact E|]. split.
  - apply Hfile; [vm_compute; lia|]. split; reflexivity.
  - apply (Hans {| response_text := Some "Paris" |}).
    + vm_compute. lia.
    + vm_compute in E. injection E as <- <- <-. reflexivity.
    + vm_compute in E. injection E as <- <- <-. repeat constructor.
Defined.

(** C8, as stated, fails: for a question without a file name nothing is
    downloaded or uploaded, and after a download that raised nothing is
    uploaded. *)
Lemma no_download_without_file_reference :
  (exists w1 tr,
     process_question (Worlds.scripted Worlds.all_well) Worlds.config
       Worlds.question_without_file 0%nat = (inr "Paris"%string, w1, tr)
     /\ downloads tr = [] /\ uploads tr = [])
  /\ (exists w1 tr,
       process_question (Worlds.scripted Worlds.rough) Worlds.config
         Worlds.question_with_file 0%nat = (inr "Paris"%string, w1, tr)
       /\ length (downloads tr) = 1%nat /\ uploads tr = []).
Proof.
  split; eexists _, _; (split; [vm_compute; reflexivity|]); by split_facts.
Qed.

(** C9, as amended.  When the assembly and the model call complete (and the
    recursion limit allows the three nodes), cleanup is attempted: the files
    are listed and each listed file is deleted once.  After a model call that
    failed on its three attempts, nothing is listed or deleted.  A deletion
    that fails is logged and does not change the answer: with the listings
    returning, the answer is the model's whatever the deletions did. *)
Theorem cleanup_after_completed_stages {W : Type} (svc : Services W)
    (config : Config) (q : QuestionData) (w : W) :
  exists s w1 tr,
    process_question svc config q w = (inr s, w1, tr)
    /\ (forall resp,
          (3 <= recursion_limit config)%nat ->
          last (generations tr) = Some (inr resp) ->
          listings tr <> []
          /\ (Forall returned (listings tr) -> s = py_str (response_text resp)))
    /\ (forall e1 e2 e3,
          generations tr = [inl e1; inl e2; inl e3] ->
          listings tr = [] /\ deletions tr = [])
    /\ match head (listings tr) with
       | Some (inr files) => map fst (deletions tr) = map name files
       | _ => deletions tr = []
       end
    /\ (forall f e, (f, inl e) ∈ deletions tr ->
        ("Failed to delete file " +:+ f +:+ ": " +:+ exn_str e)%string
        ∈ error_logs tr).
Proof.
  destruct (process_question_facts svc config q w)
    as (s & w1 & tr & r & t & E & Einv & Hf & Hd & Hu & Hg & Hl & Hx & He & Hs).
  destruct Hf as (_ & _ & _ & _ & _ & Hdel & Hlog & Hfail & Hok & _).
  exists s, w1, tr. split; [exact E|]. rewrite Hg, Hl, Hx.
  split_facts; try done.
  - intros resp Hlim Hlast. destruct (Hok resp Hlim Hlast) as [Hne Hst].
    split; [done|]. intros Hall.
    destruct (Hst Hall) as (st' & -> & Hans). simpl in Hs.
    by rewrite Hs, Hans.
  - intros e1 e2 e3 Hgen. destruct (Hfail e1 e2 e3 Hgen) as [_ Hnil].
    split; [done|]. by rewrite Hnil in Hdel.
  - intros f e Hin. by apply He, Hlog.
Qed.

Lemma cleanup_after_completed_stages_witness :
  exists s w1 tr,
    process_question (Worlds.scripted Worlds.rough) Worlds.config
      Worlds.question_with_file 0%nat = (inr s, w1, tr)
    /\ listings tr <> []
    /\ s = "Paris"
    /\ ("Failed to delete file files/abc: deletion failed")%string
       ∈ error_logs tr.
Proof.
  destruct (cleanup_after_completed_stages (Worlds.scripted Worlds.rough)
              Worlds.config Worlds.question_with_file 0%nat)
    as (s & w1 & tr & E & Hclean & _ & _ & Hlog).
  assert (Etr := E). vm_compute in Etr. injection Etr as _ _ Htr.
  destruct (Hclean {| response_text := Some "Paris" |}) as [Hne Hans].
  { vm_compute. lia. }
  { rewrite <- Htr. reflexivity. }
  exists s, w1, tr. split; [exact E|]. split; [exact Hne|]. split.
  - apply Hans. rewrite <- Htr. repeat constructor.
  - apply (Hlog "files/abc" (OtherException "deletion failed")).
    rewrite <- Htr. DetectorFacts.solve_elem.
Defined.

(** C9, as stated, fails: when the model call fails on its three attempts,
    the run ends without cleanup.  The attached file has been uploaded, and
    no file is listed or deleted afterwards. *)
Lemma no_cleanup_after_model_failure :
  exists w1 tr,
    process_question (Worlds.scripted Worlds.model_down) Worlds.config
      Worlds.question_with_file 0%nat
    = (inr "Error: RetryError[model unavailable]"%string, w1, tr)
    /\ uploads tr = [inr Worlds.a_file]
    /\ length (generations tr) = 3%nat
    /\ listings tr = []
    /\ deletions tr = [].
Proof. eexists _, _. split; [vm_compute; reflexivity|]. by split_facts. Qed.

End AgentClaims.

(** * More about the matcher *)

Module ReMore.

Import Re Spec More.

Section Scan.
Variable ic : bool.
Variable P : ascii -> Prop.
Variable r : regex.
Hypothesis r_sound : sound_step P true (rests ic r).

(** [search] finds something exactly when [findall] does. *)
Lemma search_None_findall s : search ic r s = None <-> findall ic r s = [].
Proof.
  induction s as [|c s IH].
  - rewrite (ReFacts.findall_step ic P r r_sound). simpl. unfold match_.
    destruct (rests ic r []); simpl; split; congruence.
  - rewrite (ReFacts.findall_step ic P r r_sound). simpl. unfold match_.
    destruct (rests ic r (c :: s)); simpl; [exact IH|split; congruence].
Qed.

(** Each match is a run of consecutive characters of the text. *)
Lemma findall_substring s m :
  m ∈ findall ic r s -> exists a b, s = a ++ m ++ b.
Proof.
  induction s as [s IH] using (induction_ltof1 _ (@length ascii)).
  unfold ltof in IH. rewrite (ReFacts.findall_step ic P r r_sound).
  destruct (rests ic r s) as [|rest l] eqn:E.
  - destruct s as [|c s]; [by intros ?%elem_of_nil|].
    intros Hm. destruct (IH s) as (a & b & ->); [simpl; lia|done|].
    by exists (c :: a), b.
  - destruct (r_sound s rest) as (w & -> & _ & _).
    { rewrite E. by left. }
    intros [->|Hm]%elem_of_cons.
    + exists [], rest. unfold consumed.
      by rewrite length_app, Nat.add_sub, take_app_length.
    + destruct (IH rest) as (a & b & ->);
        [by eapply (ReFacts.rests_shorter ic P r r_sound)|done|].
      exists (w ++ a), b. by rewrite <- app_assoc.
Qed.

End Scan.

(** ** What every match must contain *)

Section Demands.
Variable ic : bool.
Variable Q : ascii -> Prop.

Local Abbreviation holds_some := (More.holds_some Q).

Lemma consumes_anything r0 : consumes_only ic (fun _ => True) r0.
Proof. induction r0; simpl; auto. Qed.

Lemma rests_suffix r0 : suffix_step (rests ic r0).
Proof.
  intros s rest H.
  destruct (ReFacts.rests_sound ic _ r0 (consumes_anything r0) s rest H)
    as (w & -> & _). by exists w.
Qed.

Lemma star_suffix step : suffix_step step -> suffix_step (star step).
Proof.
  intros H s rest Hin.
  assert (Hs : sound_step (fun _ => True) false step).
  { intros s' r' Hr. destruct (H s' r' Hr) as (w & ->). exists w.
    repeat split; [|done]. by apply Forall_forall. }
  destruct (ReFacts.star_sound _ _ _ Hs s rest Hin) as (w & -> & _).
  by exists w.
Qed.

Lemma one_holds (p : ascii -> bool) :
  (forall c, p c = true -> Q c) -> holds_some (one p).
Proof.
  intros Hp [|c s] rest; simpl; [tauto|].
  destruct (p c) eqn:Hc; simpl; [|tauto].
  intros [<-|[]]. exists [c]. split; [done|]. constructor. auto.
Qed.

Lemma seq_holds_l step1 step2 :
  holds_some step1 -> suffix_step step2 ->
  holds_some (fun s => flat_map step2 (step1 s)).
Proof.
  intros H1 H2 s rest Hr. apply in_flat_map in Hr as (m & Hm & Hr).
  destruct (H1 _ _ Hm) as (w1 & -> & Hw1). destruct (H2 _ _ Hr) as (w2 & ->).
  exists (w1 ++ w2). rewrite <- app_assoc. split; [done|].
  apply Exists_app. by left.
Qed.

Lemma seq_holds_r step1 step2 :
  suffix_step step1 -> holds_some step2 ->
  holds_some (fun s => flat_map step2 (step1 s)).
Proof.
  intros H1 H2 s rest Hr. apply in_flat_map in Hr as (m & Hm & Hr).
  destruct (H1 _ _ Hm) as (w1 & ->). destruct (H2 _ _ Hr) as (w2 & -> & Hw2).
  exists (w1 ++ w2). rewrite <- app_assoc. split; [done|].
  apply Exists_app. by right.
Qed.

Lemma at_least_suffix step n : suffix_step step -> suffix_step (at_least step n).
Proof.
  intros H. induction n as [|n IH]; simpl; [by apply star_suffix|].
  intros s rest Hr. apply in_flat_map in Hr as (m & Hm & Hr).
  destruct (H _ _ Hm) as (w1 & ->). destruct (IH _ _ Hr) as (w2 & ->).
  exists (w1 ++ w2). by rewrite <- app_assoc.
Qed.

Lemma rests_demands r0 : demands ic Q r0 -> holds_some (rests ic r0).
Proof.
  induction r0 as [|p|neg items|r1 IH1 r2 IH2|r1 IH1 r2 IH2
                   |r1 IH1|r1 IH1|r1 IH1|n r1 IH1]; simpl; intros D.
  - done.
  - by apply one_holds.
  - by apply one_holds.
  - destruct D as [D|D].
    + apply seq_holds_l; [auto|apply rests_suffix].
    + apply seq_holds_r; [apply rests_suffix|auto].
  - destruct D as [D1 D2]. intros s rest Hr.
    apply in_app_iff in Hr as [Hr|Hr]; [by apply IH1|by apply IH2].
  - done.
  - apply seq_holds_l; [auto|]. apply star_suffix, rests_suffix.
  - done.
  - destruct D as [Hn D]. destruct n as [|n]; [lia|]. simpl.
    apply seq_holds_l; [auto|]. apply at_least_suffix, rests_suffix.
Qed.

(** A text without such a character has no match anywhere. *)
Lemma rests_nil_without r0 s :
  demands ic Q r0 -> Forall (fun c => ~ Q c) s -> rests ic r0 s = [].
Proof.
  intros D Hs. destruct (rests ic r0 s) as [|rest l] eqn:E; [done|].
  destruct (rests_demands r0 D s rest) as (w & -> & Hw).
  { rewrite E. by left. }
  apply Forall_app in Hs as [Hs _]. apply Exists_exists in Hw as (c & Hc & HQ).
  by destruct (proj1 (Forall_forall _ _) Hs c Hc).
Qed.

Lemma findall_nil_without r0 s :
  demands ic Q r0 -> Forall (fun c => ~ Q c) s ->
  findall ic r0 s = [] /\ search ic r0 s = None.
Proof.
  intros D Hs. split.
  - unfold findall. generalize (2 * length s + 2)%nat as fuel. intros fuel.
    revert s Hs. induction fuel as [|fuel IH]; intros s Hs; simpl; [done|].
    rewrite (rests_nil_without r0 s D Hs).
    destruct s as [|c s]; [done|]. apply IH. by apply Forall_cons in Hs as [_ ?].
  - induction Hs as [|c s Hc Hs IH]; simpl; unfold match_.
    + by rewrite (rests_nil_without r0 [] D).
    + rewrite (rests_nil_without r0 (c :: s) D) by by constructor.
      exact IH.
Qed.

End Demands.

(** ** A character that the pattern never consumes cuts the text in two *)

Section Local.
Variable ic : bool.
Variable P : ascii -> Prop.
Variable d : ascii.
Variable y : list ascii.
Hypothesis d_out : ~ P d.

Local Abbreviation glue := (fun t : list ascii => t ++ d :: y).

Lemma one_stops (p : ascii -> bool) :
  (forall c, p c = true -> P c) -> stops_at d y (one p).
Proof.
  intros Hp [|c x]; simpl.
  - destruct (p d) eqn:Hd; [|done]. by destruct d_out; apply Hp.
  - by destruct (p c).
Qed.

Lemma flat_map_glue (f g : list ascii -> list (list ascii)) l :
  (forall t, In t l -> f (glue t) = map glue (g t)) ->
  flat_map f (map glue l) = map glue (flat_map g l).
Proof.
  induction l as [|t l IH]; intros H; simpl; [done|].
  rewrite map_app, H by by left. f_equal. apply IH. intros t' Ht'.
  apply H. by right.
Qed.

Lemma seq_stops step1 step2 :
  stops_at d y step1 -> stops_at d y step2 ->
  stops_at d y (fun s => flat_map step2 (step1 s)).
Proof.
  intros H1 H2 x. simpl. rewrite H1. apply flat_map_glue. intros t _.
  apply H2.
Qed.

Lemma star_from_stops step :
  stops_at d y step ->
  forall n x, (length x < n)%nat ->
    star_from step (n + S (length y)) (x ++ d :: y)
    = map glue (star_from step n x).
Proof.
  intros H. induction n as [|n IH]; intros x Hx; [lia|].
  change (star_from step (S n + S (length y)) (x ++ d :: y))
    with (flat_map
            (fun s' =>
               if (length s' <? length (x ++ d :: y))%nat
               then star_from step (n + S (length y)) s' else [])
            (step (x ++ d :: y)) ++ [x ++ d :: y]).
  change (star_from step (S n) x)
    with (flat_map
            (fun s' =>
               if (length s' <? length x)%nat
               then star_from step n s' else [])
            (step x) ++ [x]).
  rewrite H, map_app. f_equal. apply flat_map_glue. intros t _.
  rewrite !length_app. simpl length.
  destruct (length t <? length x)%nat eqn:Hlt.
  - apply Nat.ltb_lt in Hlt.
    replace (length t + S (length y) <? length x + S (length y))%nat
      with true by (symmetry; apply Nat.ltb_lt; lia).
    apply IH. lia.
  - apply Nat.ltb_ge in Hlt.
    replace (length t + S (length y) <? length x + S (length y))%nat
      with false by (symmetry; apply Nat.ltb_ge; lia).
    done.
Qed.

Lemma star_stops step : stops_at d y step -> stops_at d y (star step).
Proof.
  intros H x. unfold star. rewrite length_app. simpl length.
  replace (S (length x + S (length y))) with (S (length x) + S (length y))%nat
    by lia.
  apply star_from_stops; [done|lia].
Qed.

Lemma at_least_stops step n :
  stops_at d y step -> stops_at d y (at_least step n).
Proof.
  intros H. induction n as [|n IH]; simpl; [by apply star_stops|].
  by apply seq_stops.
Qed.

Lemma rests_stops r :
  consumes_only ic P r -> stops_at d y (rests ic r).
Proof.
  induction r as [|p|neg items|r1 IH1 r2 IH2|r1 IH1 r2 IH2
                  |r1 IH1|r1 IH1|r1 IH1|n r1 IH1]; simpl; intros C.
  - by intros x.
  - by apply one_stops.
  - by apply one_stops.
  - destruct C. apply seq_stops; auto.
  - destruct C as [C1 C2]. intros x. simpl.
    by rewrite (IH1 C1), (IH2 C2), map_app.
  - apply star_stops; auto.
  - apply seq_stops; [|apply star_stops]; auto.
  - intros x. simpl. by rewrite (IH1 C), map_app.
  - apply at_least_stops; auto.
Qed.

End Local.

Section Split.
Variable ic : bool.
Variable P : ascii -> Prop.
Variable r : regex.
Hypothesis r_only : consumes_only ic P r.
Hypothesis r_nonnull : nonnull r = true.

Lemma r_strict : sound_step P true (rests ic r).
Proof. rewrite <- r_nonnull. by apply ReFacts.rests_sound. Qed.

(** The matches of a text cut by such a character are those of its two
    parts. *)
Lemma findall_split d (a b : list ascii) :
  ~ P d -> findall ic r (a ++ d :: b) = findall ic r a ++ findall ic r b.
Proof.
  intros Hd.
  induction a as [a IH] using (induction_ltof1 _ (@length ascii)).
  unfold ltof in IH.
  rewrite (ReFacts.findall_step ic P r r_strict (a ++ d :: b)).
  rewrite (ReFacts.findall_step ic P r r_strict a).
  rewrite (rests_stops ic P d b Hd r r_only a).
  destruct (rests ic r a) as [|rest l] eqn:E; simpl map; cbv beta iota.
  - destruct a as [|c a]; simpl app; cbv iota; [done|]. apply IH. simpl; lia.
  - pose proof (ReFacts.rests_shorter ic P r r_strict _ _ _ E) as Hlt.
    rewrite IH by done. simpl app. f_equal. unfold consumed.
    rewrite !length_app. simpl length.
    replace (length a + S (length b) - (length rest + S (length b)))%nat
      with (length a - length rest)%nat by lia.
    rewrite take_app_le by lia. done.
Qed.

End Split.

End ReMore.

(** * More about the URL detector *)

Module DetectorMore.

Import URLDetector Spec More DetectorFacts.

Lemma URL_PATTERN_nonnull : nonnull URL_PATTERN = true.
Proof. reflexivity. Qed.

Lemma url_char_clean c : is_url_char c = true -> clean_char c.
Proof.
  intros H. split; [by apply url_char_not_space|]. intros Hin.
  unfold delimiters in Hin.
  repeat (apply elem_of_cons in Hin as [->|Hin]; [discriminate H|]).
  by apply elem_of_nil in Hin.
Qed.

Lemma extract_urls_nil (text : string) :
  raw_matches text = [] -> extract_urls text = [].
Proof.
  intros H. apply elem_of_nil_inv. intros u Hu.
  apply elem_of_extract_urls in Hu as (m & Hm & _). rewrite H in Hm.
  by apply elem_of_nil in Hm.
Qed.

(** X1.  [contains_urls] answers true exactly when the pattern has a match
    in the text; when it answers false, [extract_urls] returns nothing. *)
Theorem contains_urls_guards_extract_urls (text : string) :
  (contains_urls text = true <-> raw_matches text <> [])
  /\ (contains_urls text = false -> extract_urls text = []).
Proof.
  pose proof (ReMore.search_None_findall true _ URL_PATTERN URL_PATTERN_sound
                (Str.to_list text)) as Hs.
  unfold contains_urls, raw_matches.
  destruct (Re.search true URL_PATTERN (Str.to_list text)) as [m|] eqn:E.
  - split.
    + split; [|intros _; apply bool_decide_eq_true; by eexists].
      intros _ Hnil. apply Hs in Hnil. discriminate Hnil.
    + intros H. apply bool_decide_eq_false in H. destruct H. by eexists.
  - split.
    + split.
      * intros H. apply bool_decide_eq_true in H. by destruct H.
      * intros H. destruct H. by apply Hs.
    + intros _. apply extract_urls_nil. by apply Hs.
Qed.

Lemma contains_urls_guards_extract_urls_witness :
  extract_urls "no link in this sentence" = [].
Proof.
  apply (contains_urls_guards_extract_urls "no link in this sentence").
  vm_compute. reflexivity.
Defined.

(** X2.  Every returned string is a run of consecutive characters of the
    text, as it stands or with [https://] put before it. *)
Theorem extract_urls_from_text (text u : string) :
  u ∈ extract_urls text ->
  exists m, substring m text /\ (u = m \/ u = "https://" +:+ m).
Proof.
  intros Hu. apply elem_of_extract_urls in Hu as (m & Hm & -> & _).
  pose proof (raw_match_chars text m Hm) as Hc.
  destruct (ReMore.findall_substring true _ URL_PATTERN URL_PATTERN_sound
              _ _ Hm) as (a & b & E).
  exists (Str.of_list m). split.
  - exists (Str.of_list a), (Str.of_list b).
    by rewrite <- !of_list_app, <- E, of_to_list.
  - unfold candidate, add_protocol. rewrite strip_id by done.
    assert (Ehttps : Str.of_list (Str.to_list "https://" ++ m)
                     = "https://" +:+ Str.of_list m)
      by (by rewrite of_list_app, (of_to_list "https://")).
    repeat match goal with |- context [if ?c then _ else _] => destruct c end;
      auto.
Qed.

Lemma extract_urls_from_text_witness :
  exists m, substring m "Visit www.example.com today"
            /\ ("https://www.example.com" = m
                \/ "https://www.example.com" = "https://" +:+ m).
Proof.
  apply (extract_urls_from_text "Visit www.example.com today").
  solve_elem.
Defined.

(** X3.  No returned string holds a whitespace character or one of the
    delimiters that the pattern excludes. *)
Theorem extract_urls_clean (text u : string) :
  u ∈ extract_urls text -> Forall clean_char (Str.to_list u).
Proof.
  intros Hu. apply elem_of_extract_urls in Hu as (m & Hm & -> & _).
  eapply Forall_impl; [by apply (candidate_chars text)|].
  apply url_char_clean.
Qed.

Lemma extract_urls_clean_witness :
  Forall clean_char (Str.to_list "https://example.com/a").
Proof.
  apply (extract_urls_clean "See <https://example.com/a> now").
  solve_elem.
Defined.

Ltac solve_demands :=
  lazymatch goal with
  | |- _ /\ _ => split; solve_demands
  | |- _ \/ _ => first [left; solve_demands | right; solve_demands]
  | |- (_ < _)%nat => lia
  | |- forall c : ascii, _ => by_chars
  end.

Lemma URL_PATTERN_demands_dot_or_colon :
  demands true (fun c => dot_or_colon c = true) URL_PATTERN.
Proof. cbn -[Re.lit_match Re.set_match dot_or_colon]. solve_demands. Qed.

Lemma URL_PATTERN_demands_letter :
  demands true (fun c => Chr.is_ascii_alpha c = true) URL_PATTERN.
Proof. cbn -[Re.lit_match Re.set_match Chr.is_ascii_alpha]. solve_demands. Qed.

Lemma nothing_without (Q : ascii -> bool) (text : string) :
  demands true (fun c => Q c = true) URL_PATTERN ->
  Forall (fun c => Q c = false) (Str.to_list text) ->
  contains_urls text = false /\ extract_urls text = [].
Proof.
  intros D H.
  destruct (ReMore.findall_nil_without true _ URL_PATTERN (Str.to_list text) D)
    as [Hf Hs].
  { eapply Forall_impl; [exact H|]. intros c Hc. by rewrite Hc. }
  split.
  - unfold contains_urls. rewrite Hs. apply bool_decide_eq_false.
    by intros [? ?].
  - by apply extract_urls_nil.
Qed.

(** X4.  A text with no full stop and no colon holds no URL for either
    method. *)
Theorem no_url_without_dot_or_colon (text : string) :
  Forall (fun c => c <> "."%char /\ c <> ":"%char) (Str.to_list text) ->
  contains_urls text = false /\ extract_urls text = [].
Proof.
  intros H. apply (nothing_without dot_or_colon).
  - apply URL_PATTERN_demands_dot_or_colon.
  - eapply Forall_impl; [exact H|]. intros c [Hd Hc]. unfold dot_or_colon.
    apply orb_false_iff. split; by apply Ascii.eqb_neq.
Qed.

Lemma no_url_without_dot_or_colon_witness :
  contains_urls "www example com, http // nothing" = false
  /\ extract_urls "www example com, http // nothing" = [].
Proof.
  apply no_url_without_dot_or_colon.
  repeat (constructor; [split; discriminate|]). constructor.
Defined.

(** X5.  A text whose characters all have code points below 256, which is
    what a [string] holds, and which has no ASCII letter holds no URL for
    either method: a bare IP address or a version number is never taken for
    a host.  The bound on the code points is part of the statement: under
    [re.IGNORECASE] the letters of the pattern also match a few characters
    beyond it. *)
Theorem no_url_without_letter (text : string) :
  Forall (fun c => Chr.is_ascii_alpha c = false) (Str.to_list text) ->
  contains_urls text = false /\ extract_urls text = [].
Proof.
  intros H. apply (nothing_without Chr.is_ascii_alpha); [|done].
  apply URL_PATTERN_demands_letter.
Qed.

Lemma no_url_without_letter_witness :
  contains_urls "192.168.0.1:8080/1.2.3" = false
  /\ extract_urls "192.168.0.1:8080/1.2.3" = [].
Proof.
  apply no_url_without_letter. repeat (constructor; [reflexivity|]).
  constructor.
Defined.

(** X6.  A whitespace character or an excluded delimiter cuts the text in
    two for the detector: the raw matches of the whole are those of the part
    before it followed by those of the part after it, and a string is
    returned for the whole exactly when it is returned for one of the
    parts. *)
Theorem extract_urls_splits_at_delimiter (a b : string) (d : ascii) :
  is_url_char d = false ->
  raw_matches (a +:+ String d b) = raw_matches a ++ raw_matches b
  /\ (forall u, u ∈ extract_urls (a +:+ String d b)
                <-> u ∈ extract_urls a \/ u ∈ extract_urls b).
Proof.
  intros Hd.
  assert (E : raw_matches (a +:+ String d b)
              = raw_matches a ++ raw_matches b).
  { unfold raw_matches. rewrite to_list_app. simpl.
    apply (ReMore.findall_split true _ URL_PATTERN URL_PATTERN_consumes
             URL_PATTERN_nonnull).
    by rewrite Hd. }
  split; [exact E|]. intros u. rewrite !elem_of_extract_urls. split.
  - intros (m & Hm & Hu & Hv). rewrite E in Hm.
    apply elem_of_app in Hm as [Hm|Hm]; [left|right]; by exists m.
  - intros [(m & Hm & Hu & Hv)|(m & Hm & Hu & Hv)]; exists m;
      (split; [rewrite E; apply elem_of_app; auto|done]).
Qed.

Lemma extract_urls_splits_at_delimiter_witness :
  "https://b.io/y" ∈ extract_urls ("see https://a.io/x" +:+ String " " "and https://b.io/y").
Proof.
  apply (extract_urls_splits_at_delimiter "see https://a.io/x"
           "and https://b.io/y" " " eq_refl).
  right. solve_elem.
Defined.

End DetectorMore.

(** * More about the content assembler *)

Module HandlerMore.

Import Run MultiModalContentHandler HandlerFacts Trace TraceMore.

(** X7.  Whatever it is given, the assembler contacts nothing but the
    resource of the task: it downloads at most once, from
    [base/files/task_id], uploads at most once, under the file's name and
    guessed type, and logs; the detected URLs are not fetched, and the model
    and the file listing are not called. *)
Theorem build_multimodal_content_contacts {W : Type} (svc : Services W)
    (base text : string) (task_id file_name : option string)
    (urls : list string) (w : W) r w1 tr :
  build_multimodal_content svc base text task_id file_name (Some urls) w
  = (r, w1, tr) ->
  Forall (fetch_event svc base task_id file_name) tr
  /\ (length (downloads tr) <= 1)%nat /\ (length (uploads tr) <= 1)%nat.
Proof.
  pose proof (build_cases svc base text task_id file_name urls w) as Hb.
  simpl in Hb. intros E.
  destruct task_id as [tid|], file_name as [fname|];
    try (rewrite Hb in E; injection E as <- <- <-; split; [constructor|];
         simpl; lia).
  destruct (Str.truthy tid && Str.truthy fname);
    [|rewrite Hb in E; injection E as <- <- <-; split; [constructor|];
      simpl; lia].
  pose proof (create_file_part_cases svc base tid fname w) as Hc.
  simpl in Hc.
  destruct (http_get svc (base +:+ "/files/" +:+ tid) w) as [[e|content] w2].
  - destruct Hc as (msg & Hc). rewrite Hc in Hb. rewrite Hb in E.
    injection E as <- <- <-. split; [|simpl; lia].
    repeat constructor. by exists tid.
  - destruct (files_upload svc content fname (guess_type svc fname) w2)
      as [[e|f] w3].
    + destruct Hc as (msg & Hc). rewrite Hc in Hb. rewrite Hb in E.
      injection E as <- <- <-. split; [|simpl; lia].
      repeat constructor; [by exists tid|by exists fname].
    + rewrite Hc in Hb. simpl in Hb. rewrite Hb in E.
      injection E as <- <- <-. split; [|simpl; lia].
      repeat constructor; [by exists tid|by exists fname].
Qed.

Lemma build_multimodal_content_contacts_witness :
  exists tr,
    Forall (fetch_event (Worlds.scripted Worlds.all_well)
              "https://files.example" (Some "t1") (Some "pic.png")) tr
    /\ length (downloads tr) = 1%nat.
Proof.
  eexists. split.
  - apply (build_multimodal_content_contacts
             (Worlds.scripted Worlds.all_well) "https://files.example"
             "What is this?" (Some "t1") (Some "pic.png")
             ["https://a.io/x"] 0%nat _ _ _ eq_refl).
  - reflexivity.
Defined.

Lemma lstrip_by_split p (s : list ascii) :
  exists t, s = t ++ Str.lstrip_by p s
            /\ Forall (fun c => p c = true) t
            /\ (forall c, head (Str.lstrip_by p s) = Some c -> p c = false).
Proof.
  induction s as [|c s (t & E & Ht & Hh)]; simpl.
  - exists []. repeat split; [constructor|discriminate].
  - destruct (p c) eqn:Hc.
    + exists (c :: t). simpl. rewrite <- E. repeat split; [|done].
      by constructor.
    + exists []. repeat split; [constructor|]. by intros c' [= <-].
Qed.

Lemma rstrip_by_split p (s : list ascii) :
  exists t, s = Str.rstrip_by p s ++ t
            /\ Forall (fun c => p c = true) t
            /\ (forall c, last (Str.rstrip_by p s) = Some c -> p c = false).
Proof.
  unfold Str.rstrip_by.
  destruct (lstrip_by_split p (reverse s)) as (t & E & Ht & Hh).
  exists (reverse t). repeat split.
  - rewrite <- reverse_app, <- E. by rewrite reverse_involutive.
  - by apply Forall_reverse.
  - intros c. rewrite last_reverse. apply Hh.
Qed.

(** X8.  The base URL the handler keeps is the configured one without its
    trailing slashes, however many there are: it does not end with a slash,
    so the resource URL [base/files/task_id] has a single slash before
    [files]. *)
Theorem handler_base_url_stripped (config : Agent.Config) :
  (exists n,
     Agent.api_base_url config
     = Agent.handler_base_url config +:+ Str.of_list (replicate n "/"%char))
  /\ last (Str.to_list (Agent.handler_base_url config)) <> Some "/"%char.
Proof.
  unfold Agent.handler_base_url.
  destruct (rstrip_by_split (Chr.eqb "/")
              (Str.to_list (Agent.api_base_url config))) as (t & E & Ht & Hl).
  split.
  - exists (length t).
    assert (Et : t = replicate (length t) "/"%char).
    { clear E. induction Ht as [|c t Hc _ IH]; simpl; [done|].
      apply Ascii.eqb_eq in Hc as <-. by rewrite <- IH. }
    rewrite <- Et, <- DetectorFacts.of_list_app, <- E.
    by rewrite DetectorFacts.of_to_list.
  - rewrite DetectorFacts.to_of_list. intros H. apply Hl in H.
    discriminate H.
Qed.

End HandlerMore.

(** * More about the pipeline *)

Module AgentMore.

Import Run Agent Trace TraceMore HandlerFacts AgentFacts.

Lemma contents_app a b : contents (a ++ b) = contents a ++ contents b.
Proof. apply omap_app. Qed.
Lemma sleeps_app a b : sleeps (a ++ b) = sleeps a ++ sleeps b.
Proof. apply omap_app. Qed.
Lemma uploaded_app a b : uploaded (a ++ b) = uploaded a ++ uploaded b.
Proof. apply omap_app. Qed.

Lemma assembly_quiet t :
  Forall assembly_event t ->
  generations t = [] /\ contents t = [] /\ sleeps t = []
  /\ listings t = [] /\ deletions t = [].
Proof.
  induction 1 as [|ev t Hev _ (Hg & Hc & Hs & Hl & Hd)]; [done|].
  destruct ev; try done; simpl; by rewrite ?Hg, ?Hc, ?Hs, ?Hl, ?Hd.
Qed.

Lemma model_quiet t :
  Forall model_event t ->
  downloads t = [] /\ uploads t = [] /\ uploaded t = []
  /\ listings t = [] /\ deletions t = [] /\ error_logs t = [].
Proof.
  induction 1 as [|ev t Hev _ (Hd & Hu & Hf & Hl & Hx & He)]; [done|].
  destruct ev; try done; simpl; by rewrite ?Hd, ?Hu, ?Hf, ?Hl, ?Hx, ?He.
Qed.

Lemma cleanup_quiet t :
  Forall cleanup_event t ->
  downloads t = [] /\ uploads t = [] /\ uploaded t = []
  /\ generations t = [] /\ contents t = [] /\ sleeps t = [].
Proof.
  induction 1 as [|ev t Hev _ (Hd & Hu & Hf & Hg & Hc & Hs)]; [done|].
  destruct ev; try done; simpl; by rewrite ?Hd, ?Hu, ?Hf, ?Hg, ?Hc, ?Hs.
Qed.

Lemma log_quiet t :
  Forall log_event t ->
  downloads t = [] /\ uploads t = [] /\ uploaded t = []
  /\ generations t = [] /\ contents t = [] /\ sleeps t = []
  /\ listings t = [] /\ deletions t = [].
Proof.
  induction 1 as [|ev t Hev _ IH]; [done|].
  destruct ev; try done; simpl; exact IH.
Qed.

Section Agent.
Context {W : Type} (svc : Services W) (config : Config).

Lemma analyze_shape (st : AgentState) (w : W) :
  exists u1 w1 t1,
    _analyze_input svc config st w = (inr u1, w1, t1)
    /\ Forall assembly_event t1
    /\ set_final_answer u1 = None
    /\ set_multimodal_content_parts u1
       = Some (Text (question_text st)
               :: map RemoteFile (uploaded t1)
               ++ map LinkReference
                    (URLDetector.extract_urls (question_text st))).
Proof.
  unfold _analyze_input, bind.
  pose proof (build_cases svc (handler_base_url config) (question_text st)
                (task_id st) (file_name st)
                (URLDetector.extract_urls (question_text st)) w) as Hb.
  simpl in Hb.
  destruct (task_id st) as [tid|], (file_name st) as [fname|];
    try (rewrite Hb; eexists _, _, _; split; [reflexivity|];
         split; [constructor|done]).
  destruct (Str.truthy tid && Str.truthy fname);
    [|rewrite Hb; eexists _, _, _; split; [reflexivity|];
      split; [constructor|done]].
  pose proof (create_file_part_cases svc (handler_base_url config) tid fname w)
    as Hc.
  simpl in Hc.
  destruct (http_get svc (handler_base_url config +:+ "/files/" +:+ tid) w)
    as [[e|content] w1].
  - destruct Hc as (msg & Hc). rewrite Hc in Hb. rewrite Hb.
    eexists _, _, _. split; [reflexivity|]. split; [by repeat constructor|done].
  - destruct (files_upload svc content fname (guess_type svc fname) w1)
      as [[e|f] w2].
    + destruct Hc as (msg & Hc). rewrite Hc in Hb. rewrite Hb.
      eexists _, _, _. split; [reflexivity|].
      split; [by repeat constructor|done].
    + rewrite Hc in Hb. rewrite Hb.
      eexists _, _, _. split; [reflexivity|].
      split; [by repeat constructor|done].
Qed.

Lemma agent_shape (st : AgentState) (w : W) :
  exists r w1 t,
    _call_agent svc config st w = (r, w1, t)
    /\ Forall model_event t
    /\ Forall (fun c => c = multimodal_content_parts st) (contents t)
    /\ sleeps t = take (length (generations t) - 1) [1; 2]%N
    /\ model_schedule t
    /\ match r with
       | inr u =>
           exists resp,
             last (generations t) = Some (inr resp)
             /\ set_final_answer u = Some (response_text resp)
             /\ set_multimodal_content_parts u = None
       | inl e =>
           exists e1 e2 e3,
             generations t = [inl e1; inl e2; inl e3] /\ e = RetryError e3
       end.
Proof.
  unfold _call_agent, _generate_content_with_retry, Tenacity.retry. simpl.
  unfold try_except, bind, call, emit, raise, ret.
  set (gen := generate_content svc (model_name config)
                (multimodal_content_parts st)).
  destruct (gen w) as [[e1|r1] w1].
  2: { eexists _, _, _. split; [reflexivity|]. split_facts;
       [by repeat constructor..|reflexivity| |by exists r1].
       left. by eexists _, _. }
  destruct (gen w1) as [[e2|r2] w2].
  2: { eexists _, _, _. split; [reflexivity|]. split_facts;
       [by repeat constructor..|reflexivity| |by exists r2].
       right. left. by eexists _, _, _. }
  destruct (gen w2) as [[e3|r3] w3].
  2: { eexists _, _, _. split; [reflexivity|]. split_facts;
       [by repeat constructor..|reflexivity| |by exists r3].
       right. right. by eexists _, _, _, _. }
  eexists _, _, _. split; [reflexivity|]. split_facts;
    [by repeat constructor..|reflexivity| |by eexists _, _, _].
  right. right. by eexists _, _, _, _.
Qed.

Lemma delete_loop_events (files : list File) (w : W) :
  exists w1 t,
    for_each files (delete_logged svc) w = (inr tt, w1, t)
    /\ Forall cleanup_event t /\ listings t = []
    /\ map fst (deletions t) = map name files.
Proof.
  revert w. induction files as [|file files IH]; intros w; simpl.
  - eexists _, _. unfold ret. by split_facts.
  - unfold bind at 1. unfold delete_logged at 1, try_except, call, emit.
    destruct (files_delete svc (name file) w) as [[e|[]] w1];
      destruct (IH w1) as (w2 & t & -> & Ht & Hl & Hn);
      eexists _, _; (split; [reflexivity|]); split_facts;
      try (by repeat constructor);
      rewrite ?listings_app, ?deletions_app; simpl;
      rewrite ?listings_app, ?deletions_app, ?Hl, ?Hn; done.
Qed.

Lemma cleanup_shape (st : AgentState) (w : W) :
  exists r w1 t,
    _cleanup_files svc st w = (r, w1, t)
    /\ Forall cleanup_event t
    /\ ((exists e, listings t = [inl e] /\ deletions t = [] /\ r = inl e)
        \/ (exists fs e, listings t = [inr fs; inl e] /\ r = inl e)
        \/ (exists fs fs', listings t = [inr fs; inr fs']
                           /\ r = inr no_update)).
Proof.
  unfold _cleanup_files.
  change (fun file : File =>
            try_except
              (call (EvDelete (name file)) (files_delete svc (name file)))
              (fun e =>
                 emit (EvLogError
                         ("Failed to delete file " +:+ name file +:+ ": "
                          +:+ exn_str e))))
    with (delete_logged svc).
  unfold bind at 1. unfold call at 1.
  destruct (files_list svc w) as [[e|files] w1].
  - eexists _, _, _. split; [reflexivity|]. split; [by repeat constructor|].
    left. by exists e.
  - unfold bind at 1.
    destruct (delete_loop_events files w1) as (w2 & t & -> & Ht & Hl & Hn).
    unfold bind, call, emit, ret.
    destruct (files_list svc w2) as [[e|remaining] w3];
      eexists _, _, _; (split; [reflexivity|]); split.
    + apply Forall_cons. split; [done|]. apply Forall_app. split; [done|].
      by repeat constructor.
    + right. left. exists files, e. simpl.
      by rewrite ?listings_app, ?Hl.
    + apply Forall_cons. split; [done|]. apply Forall_app. split; [done|].
      by repeat constructor.
    + right. right. exists files, remaining. simpl.
      by rewrite ?listings_app, ?Hl.
Qed.

Lemma invoke_stage_facts (st : AgentState) (limit : nat) (w : W) :
  exists r wf ta tm tc,
    LangGraph.invoke merge (_build_graph svc config) st limit w
    = (r, wf, ta ++ tm ++ tc)
    /\ stage_facts (question_text st) limit r ta tm tc.
Proof.
  unfold LangGraph.invoke, stage_facts.
  destruct limit as [|limit]; simpl.
  { exists (inl (OtherException
                  "Recursion limit reached without hitting a stop condition")),
      w, [], [], [].
    split; [reflexivity|]. split_facts; try done; try (by constructor).
    all: try (intros e _; by left). all: by left. }
  unfold bind at 1.
  destruct (analyze_shape st w) as (u1 & w1 & t1 & -> & Ha & Hfa & Hparts).
  assert (Hp : multimodal_content_parts (merge st u1)
               = Text (question_text st)
                 :: map RemoteFile (uploaded t1)
                 ++ map LinkReference
                      (URLDetector.extract_urls (question_text st))).
  { simpl. by rewrite Hparts. }
  destruct limit as [|limit]; simpl.
  { unfold raise. eexists _, _, t1, [], []. rewrite !app_nil_r.
    split; [reflexivity|]. split_facts; try done; try (by constructor).
    all: try (intros e _; by left). all: by left. }
  unfold bind at 1.
  destruct (agent_shape (merge st u1) w1)
    as (r2 & w2 & t2 & -> & Hm & Hc & Hs & Hsch & Hres).
  rewrite Hp in Hc.
  destruct r2 as [e|u2].
  { destruct Hres as (e1 & e2 & e3 & Hgen & ->).
    eexists _, _, t1, t2, []. rewrite !app_nil_r.
    split; [reflexivity|]. split_facts; try done; try (by constructor).
    all: try (intros e [= <-]; right; left; by eexists _, _, _).
    all: try (intros resp _ Hlast; rewrite Hgen in Hlast; discriminate Hlast).
    all: by right. }
  destruct Hres as (resp & Hlast & Hset & Hkeep).
  destruct limit as [|limit]; simpl.
  { unfold raise. eexists _, _, t1, t2, []. rewrite !app_nil_r.
    split; [reflexivity|]. split_facts; try done; try (by constructor).
    all: try (intros e _; right; right; by exists resp).
    all: try (intros resp' Hlim; lia). all: by right. }
  unfold bind at 1.
  destruct (cleanup_shape (merge (merge st u1) u2) w2)
    as (r3 & w3 & t3 & -> & Hcl & Hcases).
  assert (Hans : final_answer (merge (merge (merge st u1) u2) no_update)
                 = response_text resp).
  { simpl. by rewrite Hset. }
  destruct Hcases as [(e & Hl & Hd & ->)|[(fs & e & Hl & ->)
                                         |(fs & fs' & Hl & ->)]].
  - eexists _, _, t1, t2, t3. split; [reflexivity|].
    split_facts; try done.
    all: try (intros e' _; right; right; by exists resp).
    all: try (intros resp' _ Hlast'; left; by exists e).
    all: by right.
  - eexists _, _, t1, t2, t3. split; [reflexivity|].
    split_facts; try done.
    all: try (intros e' _; right; right; by exists resp).
    all: try (intros resp' _ Hlast'; right; left; by exists fs, e).
    all: by right.
  - exists (inr (merge (merge (merge st u1) u2) no_update)), w3, t1, t2, t3.
    split.
    { unfold ret. destruct limit; simpl; by rewrite ?app_nil_r. }
    split_facts; try done; [|by right].
    intros resp' _ Hlast'. rewrite Hlast in Hlast'. injection Hlast' as <-.
    right. right. by eexists fs, fs', _.
Qed.

(** The trace of [process_question], stage by stage. *)
Lemma process_question_stages (q : QuestionData) (w : W) :
  exists s wf r ta tm tc tl,
    process_question svc config q w = (inr s, wf, ta ++ tm ++ tc ++ tl)
    /\ stage_facts (default EmptyString (q_question q))
         (recursion_limit config) r ta tm tc
    /\ Forall log_event tl
    /\ (length tl <= 1)%nat
    /\ match r with
       | inr st' => s = py_str (final_answer st')
       | inl e => s = ("Error: " +:+ exn_str e)%string
       end.
Proof.
  pose proof (process_question_of_invoke svc config q w) as Hp.
  destruct (invoke_stage_facts (initial_state q) (recursion_limit config) w)
    as (r & wf & ta & tm & tc & E & Hf).
  rewrite E in Hp. destruct r as [e|st'].
  - eexists _, wf, (inl e), ta, tm, tc, _.
    rewrite <- !app_assoc in Hp. split; [exact Hp|].
    split; [exact Hf|]. split; [by repeat constructor|]. split; [simpl; lia|done].
  - eexists _, wf, (inr st'), ta, tm, tc, [].
    rewrite !app_nil_r. split; [exact Hp|]. split; [exact Hf|].
    split; [constructor|]. split; [simpl; lia|done].
Qed.

End Agent.

(** What a whole trace shows of its stages. *)
Lemma stages_read (ta tm tc tl : list event) :
  Forall assembly_event ta -> Forall model_event tm ->
  Forall cleanup_event tc -> Forall log_event tl ->
  let tr := ta ++ tm ++ tc ++ tl in
  uploaded tr = uploaded ta
  /\ contents tr = contents tm
  /\ sleeps tr = sleeps tm
  /\ generations tr = generations tm
  /\ listings tr = listings tc
  /\ deletions tr = deletions tc.
Proof.
  intros Ha Hm Hc Hl.
  destruct (assembly_quiet ta Ha) as (Ha1 & Ha2 & Ha3 & Ha4 & Ha5).
  destruct (model_quiet tm Hm) as (Hm1 & Hm2 & Hm3 & Hm4 & Hm5 & Hm6).
  destruct (cleanup_quiet tc Hc) as (Hc1 & Hc2 & Hc3 & Hc4 & Hc5 & Hc6).
  destruct (log_quiet tl Hl)
    as (Hl1 & Hl2 & Hl3 & Hl4 & Hl5 & Hl6 & Hl7 & Hl8).
  simpl.
  rewrite !uploaded_app, !contents_app, !sleeps_app, !generations_app,
    !listings_app, !deletions_app.
  rewrite Ha1, Ha2, Ha3, Ha4, Ha5, Hm3, Hm4, Hm5, Hc3, Hc4, Hc5, Hc6,
    Hl3, Hl4, Hl5, Hl6, Hl7, Hl8.
  by rewrite ?app_nil_r.
Qed.

(** X9.  Every attempt of the model call of a run is handed the same
    contents: the text of the question, then the file that the upload of
    this run returned, if any, then one link reference for each address
    that [extract_urls] finds in the question, whatever the services do. *)
Theorem model_receives_assembled_content {W : Type} (svc : Services W)
    (config : Config) (q : QuestionData) (w : W) :
  exists s w1 tr,
    process_question svc config q w = (inr s, w1, tr)
    /\ Forall (fun c =>
                 c = Text (default EmptyString (q_question q))
                     :: map RemoteFile (uploaded tr)
                     ++ map LinkReference
                          (URLDetector.extract_urls
                             (default EmptyString (q_question q))))
              (contents tr)
    /\ length (contents tr) = length (generations tr).
Proof.
  destruct (process_question_stages svc config q w)
    as (s & wf & r & ta & tm & tc & tl & E & Hf & Hl & _ & _).
  destruct Hf as (Ha & Hm & Hc & Hcont & _).
  destruct (stages_read ta tm tc tl Ha Hm Hc Hl) as (Hu & Hco & _ & Hg & _).
  exists s, wf, (ta ++ tm ++ tc ++ tl). split; [exact E|].
  rewrite Hu, Hco, Hg. split; [exact Hcont|].
  clear -Hm. induction Hm as [|ev t Hev _ IH]; [done|].
  destruct ev; try done; simpl; by rewrite ?IH.
Qed.

(** X10.  The waits of a run sit between the attempts of the model call
    and nowhere else.  The attempts and waits form one block of the trace,
    with only downloads, uploads and logs before it and only listings,
    deletions, prints and logs after it, and the block is one of: nothing;
    an attempt that returns; an attempt that raises, a wait of one second
    and an attempt that returns; or two attempts that raise, each followed
    by its wait, of one and then two seconds, and a third attempt.  So no
    wait comes before the first attempt or after the last one, and each
    wait follows an attempt that raised. *)
Theorem waits_between_attempts {W : Type} (svc : Services W)
    (config : Config) (q : QuestionData) (w : W) :
  exists s w1 ta tm tc tl,
    process_question svc config q w = (inr s, w1, ta ++ tm ++ tc ++ tl)
    /\ Forall assembly_event ta
    /\ Forall cleanup_event tc
    /\ Forall log_event tl
    /\ (tm = []
        \/ (exists c resp, tm = [EvGenerate c (inr resp)])
        \/ (exists c e1 resp,
              tm = [EvGenerate c (inl e1); EvSleep 1;
                    EvGenerate c (inr resp)])
        \/ (exists c e1 e2 r3,
              tm = [EvGenerate c (inl e1); EvSleep 1;
                    EvGenerate c (inl e2); EvSleep 2; EvGenerate c r3]))
    /\ sleeps (ta ++ tm ++ tc ++ tl)
       = take (length (generations (ta ++ tm ++ tc ++ tl)) - 1) [1; 2]%N.
Proof.
  destruct (process_question_stages svc config q w)
    as (s & wf & r & ta & tm & tc & tl & E & Hf & Hl & _ & _).
  destruct Hf as (Ha & Hm & Hc & _ & Hs & _ & _ & Hsch).
  destruct (stages_read ta tm tc tl Ha Hm Hc Hl) as (_ & _ & Hsl & Hg & _).
  exists s, wf, ta, tm, tc, tl. split; [exact E|].
  split; [exact Ha|]. split; [exact Hc|]. split; [exact Hl|].
  split; [exact Hsch|]. by rewrite Hsl, Hg.
Qed.

(** X11.  Once the model has answered, the two listings of cleanup decide
    what is returned (the recursion limit allowing the three nodes): when
    the first listing raises, nothing is deleted and the answer is the
    error string of that exception; when the second listing raises, the
    answer is the error string of that one; only when both return is the
    answer the text of the model. *)
Theorem listing_failure_replaces_answer {W : Type} (svc : Services W)
    (config : Config) (q : QuestionData) (w : W) :
  exists s w1 tr,
    process_question svc config q w = (inr s, w1, tr)
    /\ (forall resp,
          (3 <= recursion_limit config)%nat ->
          last (generations tr) = Some (inr resp) ->
          (exists e,
             listings tr = [inl e] /\ deletions tr = []
             /\ s = ("Error: " +:+ exn_str e)%string)
          \/ (exists fs e,
                listings tr = [inr fs; inl e]
                /\ s = ("Error: " +:+ exn_str e)%string)
          \/ (exists fs fs',
                listings tr = [inr fs; inr fs']
                /\ s = py_str (response_text resp))).
Proof.
  destruct (process_question_stages svc config q w)
    as (s & wf & r & ta & tm & tc & tl & E & Hf & Hl & _ & Hs).
  destruct Hf as (Ha & Hm & Hc & _ & _ & _ & Hok & _).
  destruct (stages_read ta tm tc tl Ha Hm Hc Hl)
    as (_ & _ & _ & Hg & Hli & Hde).
  exists s, wf, (ta ++ tm ++ tc ++ tl). split; [exact E|].
  rewrite Hg, Hli, Hde. intros resp Hlim Hlast.
  destruct (Hok resp Hlim Hlast)
    as [(e & H1 & H2 & ->)|[(fs & e & H1 & ->)|(fs & fs' & st' & H1 & -> & H2)]].
  - left. by exists e.
  - right. left. by exists fs, e.
  - right. right. exists fs, fs'. split; [done|]. by rewrite Hs, H2.
Qed.

Lemma listing_failure_replaces_answer_witness :
  exists s w1 tr,
    process_question
      (Worlds.scripted
         {| Worlds.download_works := true; Worlds.upload_works := true;
            Worlds.model_failures := 1; Worlds.listing_works := false;
            Worlds.deletion_works := true |})
      Worlds.config Worlds.question_with_file 0%nat = (inr s, w1, tr)
    /\ s = "Error: listing failed".
Proof.
  destruct (listing_failure_replaces_answer
              (Worlds.scripted
                 {| Worlds.download_works := true;
                    Worlds.upload_works := true;
                    Worlds.model_failures := 1;
                    Worlds.listing_works := false;
                    Worlds.deletion_works := true |})
              Worlds.config Worlds.question_with_file 0%nat)
    as (s & w1 & tr & E & H).
  exists s, w1, tr. split; [exact E|].
  assert (Hlim : (3 <= recursion_limit Worlds.config)%nat) by (simpl; lia).
  assert (Hlast : last (generations tr)
                  = Some (inr {| response_text := Some "Paris" |})).
  { vm_compute in E. injection E as <- <- <-. reflexivity. }
  assert (Hlist : listings tr = [inl (OtherException "listing failed")]).
  { vm_compute in E. injection E as <- <- <-. reflexivity. }
  destruct (H _ Hlim Hlast)
    as [(e & H1 & _ & Hs)|[(fs & e & H1 & _)|(fs & fs' & H1 & _)]];
    rewrite Hlist in H1; [|discriminate H1..].
  injection H1 as <-. exact Hs.
Defined.

(** X12.  The trace of a run falls into four consecutive parts: downloads,
    uploads and their error log; then attempts of the model call and the
    waits between them; then listings, deletions, their error log and the
    printed listing; then at most the error log of the run.  So nothing is
    fetched or uploaded once the model has been called, and the model is
    not called once cleanup has listed files. *)
Theorem process_question_stage_order {W : Type} (svc : Services W)
    (config : Config) (q : QuestionData) (w : W) :
  exists s w1 ta tm tc tl,
    process_question svc config q w = (inr s, w1, ta ++ tm ++ tc ++ tl)
    /\ Forall assembly_event ta
    /\ Forall model_event tm
    /\ Forall cleanup_event tc
    /\ Forall log_event tl
    /\ (length tl <= 1)%nat.
Proof.
  destruct (process_question_stages svc config q w)
    as (s & wf & r & ta & tm & tc & tl & E & Hf & Hl & Hn & _).
  destruct Hf as (Ha & Hm & Hc & _).
  by exists s, wf, ta, tm, tc, tl.
Qed.

End AgentMore.

(** * The configuration and the constructor of the agent *)

Module ConfigMore.

Import Environ Configuration AgentObject AgentFacts.

Section Init.
Context {F C : Type} (float : string -> result F) (int : string -> result Z)
  (Client : option string -> result C).

(** What [Config()] reads. *)
Lemma config_reads (env : environ) (c : Config F) :
  Configuration.__init__ float int env = inr c ->
  gemini_api_key c = getenv env "GEMINI_API_KEY"
  /\ Configuration.api_base_url c
     = getenv_or env "API_BASE_URL"
         "https://agents-course-unit4-scoring.hf.space"
  /\ Configuration.model_name c
     = getenv_or env "GEMINI_MODEL" "gemini-2.5-flash"
  /\ langsmith_tracing c
     = String.eqb
         (Str.of_list
            (Str.lower
               (Str.to_list (getenv_or env "LANGSMITH_TRACING" "false"))))
         "true"
  /\ langsmith_api_key c = getenv env "LANGSMITH_API_KEY"
  /\ langsmith_endpoint c
     = getenv_or env "LANGSMITH_ENDPOINT" "https://api.smith.langchain.com"
  /\ langsmith_project c = getenv_or env "LANGSMITH_PROJECT" "hf-agent-cert".
Proof.
  unfold Configuration.__init__.
  destruct (float _) as [e|t]; [done|].
  destruct (int _) as [e|n1]; [done|].
  destruct (int _) as [e|n2]; [done|].
  destruct (int _) as [e|n3]; [done|].
  by intros [= <-].
Qed.

Lemma getenv_storable (env : environ) (key : string) (v : string) :
  proper env -> getenv env key = Some v -> storable v = true.
Proof. intros Hp Hv. exact (map_Forall_lookup_1 _ _ _ _ Hp Hv). Qed.

Lemma getenv_or_storable (env : environ) (key fallback : string) :
  proper env -> storable fallback = true ->
  storable (getenv_or env key fallback) = true.
Proof.
  intros Hp Hf. unfold getenv_or.
  destruct (env !! key) as [v|] eqn:Hv; [|done].
  exact (map_Forall_lookup_1 _ _ _ _ Hp Hv).
Qed.

Lemma setenv_proper (key value : string) (env env1 : environ) :
  proper env -> setenv key value env = inr env1 -> proper env1.
Proof.
  unfold setenv, proper. intros Hp. destruct (storable value) eqn:Hs; [|done].
  intros [= <-]. by apply map_Forall_insert_2.
Qed.

Lemma setup_langsmith_elsewhere (c : Config F) (env env1 : environ) r lg :
  setup_langsmith c env = (r, env1, lg) ->
  forall k, k ∉ tracing_names -> env1 !! k = env !! k.
Proof.
  unfold setup_langsmith, set_then, setenv, tracing_names.
  destruct (_ && _); [|intros E; by injection E as _ <- _].
  repeat (destruct (storable _); cbv beta iota;
          [|intros E k Hk; injection E as _ <- _;
            repeat (apply not_elem_of_cons in Hk as [? Hk]);
            by rewrite ?lookup_insert_ne by congruence]).
  intros E k Hk; injection E as _ <- _.
  repeat (apply not_elem_of_cons in Hk as [? Hk]).
  by rewrite ?lookup_insert_ne by congruence.
Qed.

Lemma setup_langsmith_proper (c : Config F) (env env1 : environ) r lg :
  proper env -> setup_langsmith c env = (r, env1, lg) -> proper env1.
Proof.
  unfold setup_langsmith, set_then, setenv, proper. intros Hp.
  destruct (_ && _); [|intros E; by injection E as _ <- _].
  repeat (match goal with
          | |- context [storable ?v] => destruct (storable v) eqn:?
          end; cbv beta iota;
          [|intros E; injection E as _ <- _;
            by repeat apply map_Forall_insert_2]).
  intros E; injection E as _ <- _. by repeat apply map_Forall_insert_2.
Qed.

Lemma setup_langsmith_sets (c : Config F) (env : environ) :
  storable (default EmptyString (langsmith_api_key c)) = true ->
  storable (langsmith_endpoint c) = true ->
  storable (langsmith_project c) = true ->
  langsmith_tracing c && opt_truthy (langsmith_api_key c) = true ->
  exists lg,
    setup_langsmith c env
    = (inr true,
       <["LANGCHAIN_PROJECT" := langsmith_project c]>
         (<["LANGCHAIN_ENDPOINT" := langsmith_endpoint c]>
            (<["LANGCHAIN_API_KEY" := default EmptyString (langsmith_api_key c)]>
               (<["LANGCHAIN_TRACING_V2" := "true"]> env))),
       lg).
Proof.
  intros H1 H2 H3 Hon. unfold setup_langsmith, set_then, setenv.
  rewrite Hon, H1, H2, H3. by eexists.
Qed.

Lemma setup_langsmith_leaves (c : Config F) (env : environ) :
  langsmith_tracing c && opt_truthy (langsmith_api_key c) = false ->
  exists lg, setup_langsmith c env = (inr false, env, lg).
Proof.
  intros Hoff. unfold setup_langsmith. rewrite Hoff. by eexists.
Qed.

End Init.

(** X13.  An agent cannot be built without a key for the model: when the
    settings parse and neither the argument nor [GEMINI_API_KEY] holds a
    non-empty key, the constructor raises [Invalid configuration], having
    logged the missing key and left the environment as it was.  An agent
    that is built has a non-empty key, the argument when one was given and
    else the variable, and its client was made from that key. *)
Theorem agent_requires_key {F C : Type} (float : string -> result F)
    (int : string -> result Z) (Client : option string -> result C)
    (api_key api_base_url model_name : option string) (env : environ) :
  (forall c,
     Configuration.__init__ float int env = inr c ->
     opt_truthy api_key = false ->
     opt_truthy (getenv env "GEMINI_API_KEY") = false ->
     __init__ float int Client api_key api_base_url model_name env
     = (inl (OtherException "Invalid configuration"), env,
        [LogError "GEMINI_API_KEY is required but not set"]))
  /\ (forall a env' lg,
        __init__ float int Client api_key api_base_url model_name env
        = (inr a, env', lg) ->
        opt_truthy (AgentObject.api_key a) = true
        /\ AgentObject.api_key a
           = (if opt_truthy api_key then api_key
              else getenv env "GEMINI_API_KEY")
        /\ Client (AgentObject.api_key a) = inr (genai_client a)
        /\ LogError "GEMINI_API_KEY is required but not set" ∉ lg).
Proof.
  split.
  - intros c Hc Harg Henv. unfold __init__. rewrite Hc.
    destruct (config_reads float int env c Hc) as (Hkey & _).
    unfold validate, override_key. simpl. by rewrite Harg, Hkey, Henv.
  - intros a env' lg. unfold __init__.
    destruct (Configuration.__init__ float int env) as [e|c] eqn:Hc; [done|].
    destruct (config_reads float int env c Hc) as (Hkey & _).
    unfold validate. simpl.
    destruct (opt_truthy (override_key api_key (gemini_api_key c))) eqn:Hk;
      simpl; [|done].
    destruct (setup_langsmith _ env) as [[[e|b] env1] lg2] eqn:Hs; [done|].
    destruct (Client _) as [e|client] eqn:Hcl; [done|].
    intros E. injection E as <- <- <-. simpl.
    split; [exact Hk|]. split; [by rewrite <- Hkey|]. split; [exact Hcl|].
    unfold setup_langsmith in Hs.
    destruct (_ && _) in Hs.
    + unfold set_then in Hs.
      repeat (match type of Hs with
              | context [setenv ?k ?v ?m] => destruct (setenv k v m)
              end; [done|]).
      injection Hs as ? ? <-. simpl.
      rewrite not_elem_of_cons. split; [done|apply not_elem_of_nil].
    + injection Hs as ? ? <-. simpl.
      destruct (_ && _); [|apply not_elem_of_nil].
      rewrite not_elem_of_cons. split; [done|apply not_elem_of_nil].
Qed.

Lemma agent_requires_key_witness :
  __init__ Settings.float Settings.int Settings.Client
    (Some EmptyString) None None Settings.keyless
  = (inl (OtherException "Invalid configuration"), Settings.keyless,
     [LogError "GEMINI_API_KEY is required but not set"]).
Proof.
  destruct (agent_requires_key Settings.float Settings.int Settings.Client
              (Some EmptyString) None None Settings.keyless) as [H _].
  destruct (Configuration.__init__ Settings.float Settings.int
              Settings.keyless) as [e|c] eqn:Hc.
  - vm_compute in Hc. discriminate Hc.
  - apply (H c); reflexivity.
Defined.

(** X14.  For the base URL and for the model name an argument that is not
    empty comes first, then the variable of the environment when it is set,
    be it to the empty string, and last the built-in value; an empty
    argument counts as none.  The handler of the agent works on the base
    URL so chosen, without its trailing slashes. *)
Theorem agent_settings_precedence {F C : Type} (float : string -> result F)
    (int : string -> result Z) (Client : option string -> result C)
    (api_key api_base_url model_name : option string) (env env' : environ)
    (a : Agent F C) (lg : list log_record) :
  __init__ float int Client api_key api_base_url model_name env
  = (inr a, env', lg) ->
  (forall v, api_base_url = Some v -> v <> EmptyString ->
             AgentObject.api_base_url a = v)
  /\ (opt_truthy api_base_url = false ->
      AgentObject.api_base_url a
      = match env !! "API_BASE_URL" with
        | Some v => v
        | None => "https://agents-course-unit4-scoring.hf.space"
        end)
  /\ (forall v, model_name = Some v -> v <> EmptyString ->
                AgentObject.model_name a = v)
  /\ (opt_truthy model_name = false ->
      AgentObject.model_name a
      = match env !! "GEMINI_MODEL" with
        | Some v => v
        | None => "gemini-2.5-flash"
        end)
  /\ Agent.handler_base_url (run_config a)
     = Str.of_list
         (Str.rstrip_by (Chr.eqb "/")
            (Str.to_list (AgentObject.api_base_url a))).
Proof.
  unfold __init__.
  destruct (Configuration.__init__ float int env) as [e|c] eqn:Hc; [done|].
  destruct (config_reads float int env c Hc) as (_ & Hurl & Hmodel & _).
  unfold validate. simpl.
  destruct (opt_truthy (override_key api_key (gemini_api_key c)));
    simpl; [|done].
  destruct (setup_langsmith _ env) as [[[e|b] env1] lg2]; [done|].
  destruct (Client _) as [e|client]; [done|].
  intros E. injection E as <- <- <-. simpl.
  rewrite Hurl, Hmodel. unfold getenv_or, override.
  split; [|split; [|split; [|split]]].
  - intros v -> Hv. by destruct v.
  - destruct api_base_url as [[|]|]; by try done.
  - intros v -> Hv. by destruct v.
  - destruct model_name as [[|]|]; by try done.
  - reflexivity.
Qed.

Lemma agent_settings_precedence_witness :
  exists a env' lg,
    __init__ Settings.float Settings.int Settings.Client
      None (Some EmptyString) (Some "gemini-2.5-pro") Settings.traced
    = (inr a, env', lg)
    /\ AgentObject.api_base_url a = "https://scoring.example/"
    /\ AgentObject.model_name a = "gemini-2.5-pro"
    /\ Agent.handler_base_url (run_config a) = "https://scoring.example".
Proof.
  destruct (__init__ Settings.float Settings.int Settings.Client
              None (Some EmptyString) (Some "gemini-2.5-pro") Settings.traced)
    as [[[e|a] env'] lg] eqn:E.
  { vm_compute in E. discriminate E. }
  exists a, env', lg. split; [reflexivity|].
  destruct (agent_settings_precedence _ _ _ _ _ _ _ _ _ _ E)
    as (_ & Hurl & Hmodel & _ & Hbase).
  specialize (Hurl eq_refl).
  rewrite Hbase, Hurl, (Hmodel "gemini-2.5-pro" eq_refl); [|done].
  split; [|split]; reflexivity.
Defined.

(** X15.  Building an agent touches no variable of the environment but the
    four [LANGCHAIN_] ones, and keeps every value storable.  When an agent
    is built from a proper environment in which [LANGSMITH_TRACING] is
    [true], in any case of letters, and [LANGSMITH_API_KEY] is not empty,
    the four are set: the flag to [true], the key to that key, the endpoint
    and the project to their variables or built-in values.  Otherwise the
    environment is left as it was. *)
Theorem agent_init_environment {F C : Type} (float : string -> result F)
    (int : string -> result Z) (Client : option string -> result C)
    (api_key api_base_url model_name : option string) (env env' : environ)
    (r : result (Agent F C)) (lg : list log_record) :
  proper env ->
  __init__ float int Client api_key api_base_url model_name env
  = (r, env', lg) ->
  proper env'
  /\ (forall k, k ∉ tracing_names -> env' !! k = env !! k)
  /\ (tracing_on env = false -> env' = env)
  /\ (forall a, r = inr a -> tracing_on env = true ->
      env' !! "LANGCHAIN_TRACING_V2" = Some "true"
      /\ env' !! "LANGCHAIN_API_KEY" = env !! "LANGSMITH_API_KEY"
      /\ env' !! "LANGCHAIN_ENDPOINT"
         = Some (getenv_or env "LANGSMITH_ENDPOINT"
                   "https://api.smith.langchain.com")
      /\ env' !! "LANGCHAIN_PROJECT"
         = Some (getenv_or env "LANGSMITH_PROJECT" "hf-agent-cert")).
Proof.
  intros Hp. unfold __init__.
  destruct (Configuration.__init__ float int env) as [e|c] eqn:Hc.
  { intros E. injection E as <- <- <-. by split_facts. }
  destruct (config_reads float int env c Hc)
    as (_ & _ & _ & Htr & Hkey & Hend & Hproj).
  unfold validate. simpl.
  destruct (opt_truthy (override_key api_key (gemini_api_key c))); simpl.
  2:{ intros E. injection E as <- <- <-. by split_facts. }
  match goal with
  | |- context [setup_langsmith ?c1 env] => set (c1' := c1)
  end.
  assert (Hon : langsmith_tracing c1' && opt_truthy (langsmith_api_key c1')
                = tracing_on env).
  { unfold tracing_on. simpl. by rewrite Htr, Hkey. }
  destruct (setup_langsmith c1' env) as [[r1 env1] lg2] eqn:Hs.
  assert (E1 : forall rr ll, (rr, env1, ll) = (r, env', lg) -> env1 = env').
  { intros rr ll E. by injection E. }
  intros E.
  assert (env1 = env') as <-.
  { destruct r1 as [e|b]; [exact (E1 _ _ E)|].
    destruct (Client _); exact (E1 _ _ E). }
  split; [exact (setup_langsmith_proper c1' env env1 r1 lg2 Hp Hs)|].
  split; [exact (setup_langsmith_elsewhere c1' env env1 r1 lg2 Hs)|].
  split.
  - intros Hoff. rewrite Hoff in Hon.
    destruct (setup_langsmith_leaves c1' env Hon) as (lg' & Hs').
    rewrite Hs' in Hs. by injection Hs.
  - intros a -> Hyes. rewrite Hyes in Hon.
    assert (Hk : storable (default EmptyString (langsmith_api_key c1'))
                 = true).
    { simpl. rewrite Hkey. destruct (getenv env "LANGSMITH_API_KEY") eqn:Hv;
        [exact (getenv_storable env _ _ Hp Hv)|reflexivity]. }
    assert (He : storable (langsmith_endpoint c1') = true).
    { simpl. rewrite Hend. by apply getenv_or_storable. }
    assert (Hj : storable (langsmith_project c1') = true).
    { simpl. rewrite Hproj. by apply getenv_or_storable. }
    destruct (setup_langsmith_sets c1' env Hk He Hj Hon) as (lg' & Hs').
    rewrite Hs' in Hs. injection Hs as ? <- ?.
    simpl. rewrite Hkey, Hend, Hproj.
    apply andb_true_iff in Hyes as [_ Hyes].
    unfold getenv in *.
    destruct (env !! "LANGSMITH_API_KEY") as [v|] eqn:Hv; [|done].
    split_facts; simpl.
    + by rewrite !lookup_insert_ne, lookup_insert by done.
    + by rewrite !lookup_insert_ne, lookup_insert by done.
    + by rewrite !lookup_insert_ne, lookup_insert by done.
    + by rewrite lookup_insert.
Qed.

Lemma agent_init_environment_witness :
  exists a env' lg,
    __init__ Settings.float Settings.int Settings.Client
      None None None Settings.traced
    = (inr a, env', lg)
    /\ env' !! "LANGCHAIN_API_KEY" = Some "ls-key"
    /\ env' !! "GEMINI_API_KEY" = Some "g-key".
Proof.
  destruct (__init__ Settings.float Settings.int Settings.Client
              None None None Settings.traced)
    as [[[e|a] env'] lg] eqn:E.
  { vm_compute in E. discriminate E. }
  exists a, env', lg. split; [reflexivity|].
  assert (Hp : proper Settings.traced).
  { unfold Settings.traced, proper.
    repeat (apply map_Forall_insert_2; [reflexivity|]).
    apply map_Forall_empty. }
  destruct (agent_init_environment _ _ _ _ _ _ _ _ _ _ Hp E)
    as (_ & Helse & _ & Hon).
  destruct (Hon a eq_refl) as (_ & Hkey & _); [reflexivity|].
  split; [by rewrite Hkey|].
  rewrite Helse; [reflexivity|].
  unfold tracing_names. rewrite !not_elem_of_cons.
  split_facts; try done. apply not_elem_of_nil.
Defined.

End ConfigMore.
